(** * Streaming conversation controller: voice.js / app.js

    A shallow embedding of the two browser classes [VoiceChat] and
    [ChatApp] and of the stream-reading loop of [ChatApp.sendMessage],
    with the properties of the controller stated and proved over it.

    JavaScript strings are sequences of UTF-16 code units and are modelled
    as [list N].  Platform objects (speech recognition, speech synthesis,
    fetch, the DOM) are modelled by the calls the classes make on them,
    recorded in order.  [sendMessage] is asynchronous: it is modelled by
    the tasks of the event loop in which it runs, one per [await]. *)

From Stdlib Require Import QArith String Ascii Lqa.
From stdpp Require Import gmap strings list.

Local Open Scope N_scope.

(** ** JavaScript strings *)

Module JS.

Abbreviation jsstring := (list N).

(** A source literal, code unit by code unit (ASCII literals only). *)
Definition lit (s : string) : jsstring :=
  map Ascii.N_of_ascii (String.list_ascii_of_string s).

(** WhiteSpace and LineTerminator code units: the class [\s] of regular
    expressions and the characters removed by [String.prototype.trim]. *)
Definition isWhiteSpace (c : N) : bool :=
  (9 <=? c) && (c <=? 13)
  || (c =? 32) || (c =? 160) || (c =? 5760)
  || (8192 <=? c) && (c <=? 8202)
  || (c =? 8232) || (c =? 8233) || (c =? 8239) || (c =? 8287)
  || (c =? 12288) || (c =? 65279).

Fixpoint trimStart (s : jsstring) : jsstring :=
  match s with
  | [] => []
  | c :: s' => if isWhiteSpace c then trimStart s' else s
  end.

Definition trimEnd (s : jsstring) : jsstring := rev (trimStart (rev s)).

Definition trim (s : jsstring) : jsstring := trimEnd (trimStart s).

(** [s.startsWith(p)] *)
Fixpoint startsWith (p s : jsstring) : bool :=
  match p, s with
  | [], _ => true
  | _ :: _, [] => false
  | a :: p', b :: s' => (a =? b) && startsWith p' s'
  end.

(** [s.slice(n)] for [0 <= n] *)
Definition slice (n : nat) (s : jsstring) : jsstring := drop n s.

(** [s.includes(p)] *)
Fixpoint includes (p s : jsstring) : bool :=
  startsWith p s ||
  match s with
  | [] => false
  | _ :: s' => includes p s'
  end.

(** [s.split('\n')]: never empty; a string without newline is returned
    whole, and a string ending in a newline has a final empty element. *)
Fixpoint split_nl (s : jsstring) : list jsstring :=
  match s with
  | [] => [[]]
  | c :: s' =>
      if c =? 10 then [] :: split_nl s'
      else match split_nl s' with
           | [] => [[c]]
           | l :: ls => (c :: l) :: ls
           end
  end.

(** The element added in front of the first line by a code unit that is
    not a newline. *)
Definition cons_head (c : N) (ls : list jsstring) : list jsstring :=
  match ls with
  | [] => [[c]]
  | l :: ls' => (c :: l) :: ls'
  end.

(** What [lines.pop() || ''] returns for [lines = s.split('\n')]: the text
    that follows the last newline. *)
Definition pending (s : jsstring) : jsstring := default [] (last (split_nl s)).

(** What [lines.pop()] leaves in [lines]: the lines that end in a newline. *)
Definition complete_lines (s : jsstring) : list jsstring := removelast (split_nl s).

(** [s.match(re)] for a regular expression [re] without the [g] flag that
    is a single character class [cls]: [null] when no code unit is in the
    class, else the one-element match array holding the first match. *)
Fixpoint match_class (cls : N -> bool) (s : jsstring) : option (list jsstring) :=
  match s with
  | [] => None
  | c :: s' => if cls c then Some [[c]] else match_class cls s'
  end.

(** [s.replace(re, '')] for [re] a single character class with the [g]
    flag: every code unit of the class is removed. *)
Definition remove_class (cls : N -> bool) (s : jsstring) : jsstring :=
  filter (fun c => cls c = false) s.

(** [a === b] on strings *)
Definition strictEq (a b : jsstring) : bool := bool_decide (a = b).

(** [a > b] on numbers *)
Definition Qgt_bool (a b : Q) : bool := negb (Qle_bool a b).

(** A string is truthy when it is not empty. *)
Definition truthy (s : jsstring) : bool :=
  match s with [] => false | _ => true end.

End JS.

Import JS.

(** ** ChatApp.detectLanguageFromText *)

(** The character class of the Devanagari block, U+0900 to U+097F. *)
Definition devanagariRegex (c : N) : bool := (2304 <=? c) && (c <=? 2431).

(** The quotient [devanagariCount / totalChars] is a double in the source.
    Both operands are string lengths, far below 2^53, and rounding to
    nearest is monotone, so the comparison of the rounded quotient with
    the double nearest to 0.3 agrees with the comparison of the exact
    quotient with 3/10, which is what is computed here. *)
Definition detectLanguageFromText (text : jsstring) : jsstring :=
  let devanagariCount := length (default [] (match_class devanagariRegex text)) in
  let totalChars := length (remove_class isWhiteSpace text) in
  if Nat.eqb totalChars 0 then lit "en"
  else
    let devanagariRatio : Q := (Z.of_nat devanagariCount # Pos.of_nat totalChars) in
    if Nat.eqb devanagariCount 0 then lit "en"
    else if Qgt_bool devanagariRatio (3 # 10) then lit "hi"
    else lit "en".

(** The classifier as the specification words it: every code unit of the
    Devanagari block is counted. *)
Definition classify_spec (text : jsstring) : jsstring :=
  let devanagari := length (filter (fun c => devanagariRegex c = true) text) in
  let total := length (remove_class isWhiteSpace text) in
  if Nat.eqb total 0 then lit "en"
  else if Nat.eqb devanagari 0 then lit "en"
  else if Qgt_bool (Z.of_nat devanagari # Pos.of_nat total) (3 # 10) then lit "hi"
  else lit "en".

(** "नमस्ते दुनिया" *)
Definition namaste_duniya : jsstring :=
  [2344; 2350; 2360; 2381; 2340; 2375; 32; 2342; 2369; 2344; 2367; 2351; 2366].


(** ** voice.js: class VoiceChat *)

Module Voice.

Record SpeechSynthesisVoice := {
  voice_name : jsstring;
  voice_lang : jsstring
}.

Record SpeechRecognition := {
  continuous : bool;
  interimResults : bool;
  recognition_lang : option jsstring
}.

Record SpeechSynthesisUtterance := {
  utterance_text : jsstring;
  utterance_voice : SpeechSynthesisVoice;
  utterance_lang : jsstring;
  utterance_rate : Q;
  utterance_pitch : Q;
  utterance_volume : Q
}.

(** What the page offers when the constructor runs: whether a speech
    recognition constructor exists, and [window.speechSynthesis] with the
    list its [getVoices()] returns ([None]: the object is undefined). *)
Record Window := {
  hasSpeechRecognition : bool;
  speechSynthesis : option (list SpeechSynthesisVoice)
}.

(** Calls made on the platform objects and on the page. *)
Inductive Action :=
| RecognitionStart
| RecognitionStop
| SynthesisCancel
| SynthesisSpeak (utterance : SpeechSynthesisUtterance)
| ShowVoiceStatus (message type : jsstring)
| UpdateRecordingUI (recording : bool)
| SetMessageInput (value : jsstring)
| SetTimeoutHideStatus.

Record VoiceChat := {
  recognition : option SpeechRecognition;
  synthesis : bool;
  isRecording : bool;
  currentUtterance : option SpeechSynthesisUtterance;
  voiceLanguage : jsstring;
  voiceOutputEnabled : bool;
  voices : option (list SpeechSynthesisVoice)
}.

Definition set_recognition (r : option SpeechRecognition) (vc : VoiceChat) : VoiceChat :=
  {| recognition := r; synthesis := synthesis vc; isRecording := isRecording vc;
     currentUtterance := currentUtterance vc; voiceLanguage := voiceLanguage vc;
     voiceOutputEnabled := voiceOutputEnabled vc; voices := voices vc |}.

Definition set_isRecording (b : bool) (vc : VoiceChat) : VoiceChat :=
  {| recognition := recognition vc; synthesis := synthesis vc; isRecording := b;
     currentUtterance := currentUtterance vc; voiceLanguage := voiceLanguage vc;
     voiceOutputEnabled := voiceOutputEnabled vc; voices := voices vc |}.

Definition set_currentUtterance (u : option SpeechSynthesisUtterance) (vc : VoiceChat) : VoiceChat :=
  {| recognition := recognition vc; synthesis := synthesis vc; isRecording := isRecording vc;
     currentUtterance := u; voiceLanguage := voiceLanguage vc;
     voiceOutputEnabled := voiceOutputEnabled vc; voices := voices vc |}.

Definition set_voiceLanguage (l : jsstring) (vc : VoiceChat) : VoiceChat :=
  {| recognition := recognition vc; synthesis := synthesis vc; isRecording := isRecording vc;
     currentUtterance := currentUtterance vc; voiceLanguage := l;
     voiceOutputEnabled := voiceOutputEnabled vc; voices := voices vc |}.

Definition set_voiceOutputEnabled (b : bool) (vc : VoiceChat) : VoiceChat :=
  {| recognition := recognition vc; synthesis := synthesis vc; isRecording := isRecording vc;
     currentUtterance := currentUtterance vc; voiceLanguage := voiceLanguage vc;
     voiceOutputEnabled := b; voices := voices vc |}.

Definition set_voices (vs : option (list SpeechSynthesisVoice)) (vc : VoiceChat) : VoiceChat :=
  {| recognition := recognition vc; synthesis := synthesis vc; isRecording := isRecording vc;
     currentUtterance := currentUtterance vc; voiceLanguage := voiceLanguage vc;
     voiceOutputEnabled := voiceOutputEnabled vc; voices := vs |}.

(** [constructor()] followed by [init()].  Without speech recognition
    [init] returns before the voices are loaded, so [voices] stays
    undefined.  With it, [this.synthesis.getVoices()] is evaluated, which
    throws when [window.speechSynthesis] is undefined: no object then. *)
Definition new_VoiceChat (window : Window) : option VoiceChat :=
  let this :=
    {| recognition := None;
       synthesis := bool_decide (is_Some (speechSynthesis window));
       isRecording := false;
       currentUtterance := None;
       voiceLanguage := lit "en";
       voiceOutputEnabled := true;
       voices := None |} in
  if negb (hasSpeechRecognition window) then Some this
  else
    let this :=
      set_recognition
        (Some {| continuous := false; interimResults := true;
                 recognition_lang := None |}) this in
    match speechSynthesis window with
    | None => None
    | Some vs => Some (set_voices (Some vs) this)
    end.

Definition langCode (language : jsstring) : jsstring :=
  if strictEq language (lit "hi") then lit "hi-IN" else lit "en-US".

Definition langPrefix (language : jsstring) : jsstring :=
  if strictEq language (lit "hi") then lit "hi" else lit "en".

Definition getVoiceForLanguage (language : jsstring) (this : VoiceChat)
  : option SpeechSynthesisVoice :=
  match voices this with
  | None => None
  | Some [] => None
  | Some vs =>
      match find (fun v => startsWith (langCode language) (voice_lang v)
                           || startsWith (langPrefix language) (voice_lang v)) vs with
      | Some voice => Some voice
      | None =>
          match find (fun v => includes (langPrefix language) (voice_lang v)) vs with
          | Some voice => Some voice
          | None => head vs
          end
      end
  end.

Definition setLanguage (language : jsstring) (this : VoiceChat) : VoiceChat :=
  let this := set_voiceLanguage language this in
  match recognition this with
  | Some r =>
      set_recognition
        (Some {| continuous := continuous r; interimResults := interimResults r;
                 recognition_lang := Some (langCode language) |}) this
  | None => this
  end.

Definition stopRecording (this : VoiceChat) : VoiceChat * list Action :=
  if bool_decide (is_Some (recognition this)) && isRecording this
  then (this, [RecognitionStop])
  else (this, []).

(** [startThrows]: whether the platform's [recognition.start()] throws
    (it does when a session is already starting). *)
Definition startRecording (startThrows : bool) (this : VoiceChat)
  : VoiceChat * list Action :=
  match recognition this with
  | None =>
      (this, [ShowVoiceStatus (lit "Speech recognition not supported in this browser")
                              (lit "error")])
  | Some _ =>
      if isRecording this then stopRecording this
      else if startThrows
           then (this, [RecognitionStart;
                        ShowVoiceStatus (lit "Failed to start recording") (lit "error")])
           else (this, [RecognitionStart;
                        ShowVoiceStatus (lit "Listening...") (lit "listening")])
  end.

Definition handleTranscript (transcript : jsstring) (isFinal : bool) : list Action :=
  if isFinal
  then [SetMessageInput (trim transcript);
        ShowVoiceStatus (lit "Transcript ready") (lit "success");
        SetTimeoutHideStatus]
  else [ShowVoiceStatus (lit "Listening: " ++ transcript) (lit "listening")].

Definition handleRecognitionError (error : jsstring) : list Action :=
  let message :=
    if strictEq error (lit "no-speech") then lit "No speech detected"
    else if strictEq error (lit "audio-capture") then lit "Microphone not found"
    else if strictEq error (lit "not-allowed") then lit "Microphone permission denied"
    else if strictEq error (lit "network") then lit "Network error"
    else lit "Recording error" in
  [ShowVoiceStatus message (lit "error")].

(** [speak(text, language = null)] *)
Definition speak (text : jsstring) (language : option jsstring) (this : VoiceChat)
  : VoiceChat * list Action :=
  if negb (voiceOutputEnabled this) || negb (synthesis this) then (this, [])
  else
    let cancel :=
      match currentUtterance this with
      | Some _ => [SynthesisCancel]
      | None => []
      end in
    let lang :=
      match language with
      | Some l => if truthy l then l else voiceLanguage this
      | None => voiceLanguage this
      end in
    match getVoiceForLanguage lang this with
    | None => (this, cancel)
    | Some voice =>
        let utterance :=
          {| utterance_text := text;
             utterance_voice := voice;
             utterance_lang := langCode lang;
             utterance_rate := 1; utterance_pitch := 1; utterance_volume := 1 |} in
        (set_currentUtterance (Some utterance) this,
         cancel ++ [SynthesisSpeak utterance])
    end.

Definition stopSpeaking (this : VoiceChat) : VoiceChat * list Action :=
  if synthesis this
  then (set_currentUtterance None this, [SynthesisCancel])
  else (this, []).

Definition setVoiceOutputEnabled (enabled : bool) (this : VoiceChat)
  : VoiceChat * list Action :=
  let this := set_voiceOutputEnabled enabled this in
  if negb enabled then stopSpeaking this else (this, []).

(** Everything that can happen to a [VoiceChat]: its methods being
    called, and the callbacks it installed being fired by the platform.
    For [OnResult] the transcript is the concatenation the handler builds
    from the platform's result list. *)
Inductive Event :=
| CallStartRecording (startThrows : bool)
| CallStopRecording
| CallSetLanguage (language : jsstring)
| CallSpeak (text : jsstring) (language : option jsstring)
| CallStopSpeaking
| CallSetVoiceOutputEnabled (enabled : bool)
| OnStart
| OnResult (transcript : jsstring) (isFinal : bool)
| OnError (error : jsstring)
| OnEnd
| OnVoicesChanged (vs : list SpeechSynthesisVoice)
| UtteranceOnEnd
| UtteranceOnError.

(** The recognition callbacks and [onvoiceschanged] are installed only
    when [init] found speech recognition. *)
Definition step (e : Event) (this : VoiceChat) : VoiceChat * list Action :=
  match e with
  | CallStartRecording startThrows => startRecording startThrows this
  | CallStopRecording => stopRecording this
  | CallSetLanguage language => (setLanguage language this, [])
  | CallSpeak text language => speak text language this
  | CallStopSpeaking => stopSpeaking this
  | CallSetVoiceOutputEnabled enabled => setVoiceOutputEnabled enabled this
  | OnStart =>
      match recognition this with
      | Some _ => (set_isRecording true this, [UpdateRecordingUI true])
      | None => (this, [])
      end
  | OnResult transcript isFinal =>
      match recognition this with
      | Some _ => (this, handleTranscript transcript isFinal)
      | None => (this, [])
      end
  | OnError error =>
      match recognition this with
      | Some _ =>
          let '(this', acts) := stopRecording this in
          (this', handleRecognitionError error ++ acts)
      | None => (this, [])
      end
  | OnEnd =>
      match recognition this with
      | Some _ => (set_isRecording false this, [UpdateRecordingUI false])
      | None => (this, [])
      end
  | OnVoicesChanged vs =>
      match recognition this with
      | Some _ => (set_voices (Some vs) this, [])
      | None => (this, [])
      end
  | UtteranceOnEnd => (set_currentUtterance None this, [])
  | UtteranceOnError => (set_currentUtterance None this, [])
  end.

Fixpoint run (es : list Event) (this : VoiceChat) : VoiceChat * list Action :=
  match es with
  | [] => (this, [])
  | e :: es' =>
      let '(this1, acts1) := step e this in
      let '(this2, acts2) := run es' this1 in
      (this2, acts1 ++ acts2)
  end.

(** The states a [VoiceChat] can be in: built by the constructor on some
    page, then driven by any sequence of events. *)
Inductive reachable : VoiceChat -> Prop :=
| reachable_new window this :
    new_VoiceChat window = Some this -> reachable this
| reachable_step e this :
    reachable this -> reachable (fst (step e this)).

(** A page with speech recognition and one English voice, the object
    built on it, that object once the platform has reported the start of
    a recognition session, and that object in the middle of an utterance
    when the platform reports that no voice is left. *)
Definition english_voice : SpeechSynthesisVoice :=
  {| voice_name := lit "English"; voice_lang := lit "en-US" |}.

Definition sample_window : Window :=
  {| hasSpeechRecognition := true; speechSynthesis := Some [english_voice] |}.

Definition sample_VoiceChat : VoiceChat :=
  set_voices (Some [english_voice])
    (set_recognition
       (Some {| continuous := false; interimResults := true; recognition_lang := None |})
       {| recognition := None; synthesis := true; isRecording := false;
          currentUtterance := None; voiceLanguage := lit "en";
          voiceOutputEnabled := true; voices := None |}).

Definition listening_VoiceChat : VoiceChat := fst (step OnStart sample_VoiceChat).

Definition voiceless_VoiceChat : VoiceChat :=
  fst (step (OnVoicesChanged [])
         (fst (step (CallSpeak (lit "Hi") (Some (lit "en"))) sample_VoiceChat))).

(** The language [speak] uses: [language || this.voiceLanguage]. *)
Definition spoken_language (language : option jsstring) (this : VoiceChat) : jsstring :=
  match language with
  | Some l => if truthy l then l else voiceLanguage this
  | None => voiceLanguage this
  end.

(** A page without speech recognition, and the object built on it. *)
Definition unsupported_window : Window :=
  {| hasSpeechRecognition := false; speechSynthesis := Some [english_voice] |}.

Definition unsupported_VoiceChat : VoiceChat :=
  {| recognition := None; synthesis := true; isRecording := false;
     currentUtterance := None; voiceLanguage := lit "en";
     voiceOutputEnabled := true; voices := None |}.

End Voice.

(** ** app.js: class ChatApp *)

Module App.

Inductive Role := user | assistant.

(** The argument of [setAvatarState]: one of the five literals
    ['idle'], ['thinking'], ['streaming'], ['speaking'], ['error']. *)
Inductive AvatarState := idle | thinking | streaming | speaking | error.

Definition number := Q.

(** A record of the stream, as [JSON.parse] returns it for the wire
    format [{type: 'token', content}] and
    [{type: 'status', state, metrics?: {latency}, message?}]; [other] is
    a value whose [type] is neither.  Two more values are accepted by
    [JSON.parse] and make [handleStreamEvent] throw a TypeError:
    [null_record] is the JSON text [null], whose [type] cannot be read,
    and [status_without_latency] is a status record whose [metrics] is
    truthy and holds no number under [latency], so that
    [event.metrics.latency.toFixed] cannot be called. *)
Inductive StreamEvent :=
| token (content : jsstring)
| status (state : jsstring) (metrics : option number) (message : option jsstring)
| other
| null_record
| status_without_latency (state : jsstring) (message : option jsstring).

(** Calls that leave the class: the chat request, the call of
    [voiceChat.speak], the platform calls made by [VoiceChat], and the
    two-second timer that resets the avatar. *)
Inductive Call :=
| Fetch (message : jsstring) (session_id : option jsstring)
| Speak (text language : jsstring)
| VoiceAction (a : Voice.Action)
| SetTimeoutIdle.

(** Where the one suspended activation of [sendMessage] waits: at
    [await fetch] or at [await reader.read()], with its locals. *)
Inductive Turn :=
| AwaitFetch (contentElement : nat)
| AwaitRead (contentElement : nat) (buffer : jsstring).

(** The [ChatApp] object, the parts of the page it reads and writes, and
    the pending work of the event loop.  [messages] are the children of
    the messages container in order, an element being referred to by its
    position; [avatarStates] lists every state passed to
    [setAvatarState] so far, the last one being displayed; [statusText]
    maps the ids of the status elements on the page to their text. *)
Record World := {
  sessionId : option jsstring;
  currentMessage : jsstring;
  isStreaming : bool;
  voiceChat : option Voice.VoiceChat;
  messageInput : jsstring;
  messages : list (Role * jsstring);
  avatarStates : list AvatarState;
  statusText : gmap string jsstring;
  turn : option Turn;
  idleTimers : nat;
  calls : list Call
}.

Definition set_currentMessage (x : jsstring) (w : World) : World :=
  {| sessionId := sessionId w; currentMessage := x; isStreaming := isStreaming w;
     voiceChat := voiceChat w; messageInput := messageInput w; messages := messages w;
     avatarStates := avatarStates w; statusText := statusText w; turn := turn w;
     idleTimers := idleTimers w; calls := calls w |}.

Definition set_isStreaming (x : bool) (w : World) : World :=
  {| sessionId := sessionId w; currentMessage := currentMessage w; isStreaming := x;
     voiceChat := voiceChat w; messageInput := messageInput w; messages := messages w;
     avatarStates := avatarStates w; statusText := statusText w; turn := turn w;
     idleTimers := idleTimers w; calls := calls w |}.

Definition set_voiceChat (x : option Voice.VoiceChat) (w : World) : World :=
  {| sessionId := sessionId w; currentMessage := currentMessage w;
     isStreaming := isStreaming w; voiceChat := x; messageInput := messageInput w;
     messages := messages w; avatarStates := avatarStates w;
     statusText := statusText w; turn := turn w; idleTimers := idleTimers w;
     calls := calls w |}.

Definition set_messageInput (x : jsstring) (w : World) : World :=
  {| sessionId := sessionId w; currentMessage := currentMessage w;
     isStreaming := isStreaming w; voiceChat := voiceChat w; messageInput := x;
     messages := messages w; avatarStates := avatarStates w;
     statusText := statusText w; turn := turn w; idleTimers := idleTimers w;
     calls := calls w |}.

Definition set_messages (x : list (Role * jsstring)) (w : World) : World :=
  {| sessionId := sessionId w; currentMessage := currentMessage w;
     isStreaming := isStreaming w; voiceChat := voiceChat w;
     messageInput := messageInput w; messages := x; avatarStates := avatarStates w;
     statusText := statusText w; turn := turn w; idleTimers := idleTimers w;
     calls := calls w |}.

Definition set_avatarStates (x : list AvatarState) (w : World) : World :=
  {| sessionId := sessionId w; currentMessage := currentMessage w;
     isStreaming := isStreaming w; voiceChat := voiceChat w;
     messageInput := messageInput w; messages := messages w; avatarStates := x;
     statusText := statusText w; turn := turn w; idleTimers := idleTimers w;
     calls := calls w |}.

Definition set_statusText (x : gmap string jsstring) (w : World) : World :=
  {| sessionId := sessionId w; currentMessage := currentMessage w;
     isStreaming := isStreaming w; voiceChat := voiceChat w;
     messageInput := messageInput w; messages := messages w;
     avatarStates := avatarStates w; statusText := x; turn := turn w;
     idleTimers := idleTimers w; calls := calls w |}.

Definition set_turn (x : option Turn) (w : World) : World :=
  {| sessionId := sessionId w; currentMessage := currentMessage w;
     isStreaming := isStreaming w; voiceChat := voiceChat w;
     messageInput := messageInput w; messages := messages w;
     avatarStates := avatarStates w; statusText := statusText w; turn := x;
     idleTimers := idleTimers w; calls := calls w |}.

Definition set_idleTimers (x : nat) (w : World) : World :=
  {| sessionId := sessionId w; currentMessage := currentMessage w;
     isStreaming := isStreaming w; voiceChat := voiceChat w;
     messageInput := messageInput w; messages := messages w;
     avatarStates := avatarStates w; statusText := statusText w; turn := turn w;
     idleTimers := x; calls := calls w |}.

Definition set_calls (x : list Call) (w : World) : World :=
  {| sessionId := sessionId w; currentMessage := currentMessage w;
     isStreaming := isStreaming w; voiceChat := voiceChat w;
     messageInput := messageInput w; messages := messages w;
     avatarStates := avatarStates w; statusText := statusText w; turn := turn w;
     idleTimers := idleTimers w; calls := x |}.

(** The state the avatar displays ([None] before the first call of
    [setAvatarState], when the page shows its initial markup). *)
Definition avatar (w : World) : option AvatarState := last (avatarStates w).

Definition push_call (c : Call) (w : World) : World := set_calls (calls w ++ [c]) w.

(** Outcome of a block that may throw, with the state it leaves. *)
Inductive completion (S : Type) :=
| Normal (s : S)
| Throw (s : S).
Arguments Normal {S} s.
Arguments Throw {S} s.

(** Sequencing of two blocks that may throw. *)
Definition and_then {S} (c : completion S) (k : S -> completion S) : completion S :=
  match c with
  | Normal s => k s
  | Throw s => Throw s
  end.

(** Two outcomes of the same kind whose states are related. *)
Definition completion_rel {S1 S2} (R : S1 -> S2 -> Prop)
  (c1 : completion S1) (c2 : completion S2) : Prop :=
  match c1, c2 with
  | Normal s1, Normal s2 => R s1 s2
  | Throw s1, Throw s2 => R s1 s2
  | _, _ => False
  end.

(** Handling a list of records one after the other. *)
Definition handle_all {S} (handle : StreamEvent -> S -> S) (fs : list StreamEvent) (s : S) : S :=
  foldl (fun s data => handle data s) s fs.

Definition completion_map {S1 S2} (f : S1 -> S2) (c : completion S1) : completion S2 :=
  match c with
  | Normal s => Normal (f s)
  | Throw s => Throw (f s)
  end.

Definition addMessage (content : jsstring) (role : Role) (w : World) : World :=
  set_messages (messages w ++ [(role, content)]) w.

Definition setAvatarState (state : AvatarState) (w : World) : World :=
  set_avatarStates (avatarStates w ++ [state]) w.

Definition updateStatus (elementId : string) (value : jsstring) (w : World) : World :=
  match statusText w !! elementId with
  | Some _ => set_statusText (<[elementId := value]> (statusText w)) w
  | None => w
  end.

(** [contentElement.textContent = text] *)
Definition setTextContent (contentElement : nat) (text : jsstring) (w : World) : World :=
  set_messages (alter (fun m => (m.1, text)) contentElement (messages w)) w.

(** The effect on the page and the platform of one call made by
    [VoiceChat]. *)
Definition perform (a : Voice.Action) (w : World) : World :=
  let w := push_call (VoiceAction a) w in
  match a with
  | Voice.SetMessageInput value => set_messageInput value w
  | _ => w
  end.

Definition perform_all (acts : list Voice.Action) (w : World) : World :=
  foldl (fun w a => perform a w) w acts.

(** [this.voiceChat.speak(text, language)] *)
Definition voiceChat_speak (vc : Voice.VoiceChat) (text language : jsstring) (w : World)
  : World :=
  let w := push_call (Speak text language) w in
  let '(vc', acts) := Voice.speak text (Some language) vc in
  perform_all acts (set_voiceChat (Some vc') w).

(** ['undefined'] when the field is missing *)
Definition toString (s : option jsstring) : jsstring :=
  match s with Some s => s | None => lit "undefined" end.

(** The content of the message box after the calls [acts] of
    [VoiceChat], when it held [value] before. *)
Definition input_after (acts : list Voice.Action) (value : jsstring) : jsstring :=
  foldl (fun value a =>
           match a with
           | Voice.SetMessageInput value' => value'
           | _ => value
           end) value acts.

Section Platform.

(** [Number.prototype.toFixed] and [JSON.parse] followed by the reading
    of the record ([None]: a SyntaxError is thrown). *)
Variable toFixed : number -> nat -> jsstring.
Variable JSON_parse : jsstring -> option StreamEvent.

Definition handleStreamEvent (event : StreamEvent) (contentElement : nat) (w : World)
  : World :=
  match event with
  | token content =>
      let w := set_currentMessage (currentMessage w ++ content) w in
      let w := setTextContent contentElement (currentMessage w) w in
      setAvatarState streaming w
  | status state metrics message =>
      if strictEq state (lit "thinking") then setAvatarState thinking w
      else if strictEq state (lit "complete") then
        let w := setAvatarState speaking w in
        let w :=
          match metrics with
          | Some latency => updateStatus "latency" (toFixed latency 2 ++ lit "s") w
          | None => w
          end in
        let w :=
          match voiceChat w with
          | Some vc =>
              if truthy (currentMessage w) then
                let detectedLang := detectLanguageFromText (currentMessage w) in
                voiceChat_speak vc (currentMessage w) detectedLang w
              else w
          | None => w
          end in
        set_idleTimers (S (idleTimers w)) (push_call SetTimeoutIdle w)
      else if strictEq state (lit "error") then
        let w := setAvatarState error w in
        setTextContent contentElement
          (currentMessage w ++ [10; 10] ++ lit "[Error: " ++ toString message ++ lit "]") w
      else w
  | other => w
  | null_record => w
  | status_without_latency state message =>
      if strictEq state (lit "thinking") then setAvatarState thinking w
      else if strictEq state (lit "complete") then setAvatarState speaking w
      else if strictEq state (lit "error") then
        let w := setAvatarState error w in
        setTextContent contentElement
          (currentMessage w ++ [10; 10] ++ lit "[Error: " ++ toString message ++ lit "]") w
      else w
  end.

(** Whether [handleStreamEvent] leaves by a TypeError on this record;
    [handleStreamEvent] then gives the state at the throw: nothing has
    been done for [null], and the avatar has been set to speaking when
    [latency] cannot be formatted. *)
Definition throws (event : StreamEvent) : bool :=
  match event with
  | null_record => true
  | status_without_latency state _ =>
      negb (strictEq state (lit "thinking")) && strictEq state (lit "complete")
  | _ => false
  end.

(** [for (const line of lines) { ... }] of the reading loop, over any
    state [S] and any handler of the decoded records; the loop is left
    by the SyntaxError of [JSON.parse] and by the TypeError of the
    handler. *)
Fixpoint for_lines {S : Type} (handle : StreamEvent -> S -> S)
  (lines : list jsstring) (s : S) : completion S :=
  match lines with
  | [] => Normal s
  | line :: lines' =>
      if startsWith (lit "data: ") line then
        match JSON_parse (slice 6 line) with
        | Some data =>
            if throws data then Throw (handle data s)
            else for_lines handle lines' (handle data s)
        | None => Throw s
        end
      else for_lines handle lines' s
  end.

(** One iteration of [while (true)] after a chunk has been read:
    the new [buffer] and the outcome of the [for] loop. *)
Definition loop_body {S : Type} (handle : StreamEvent -> S -> S)
  (buffer value : jsstring) (s : S) : jsstring * completion S :=
  let buffer := buffer ++ value in
  let lines := split_nl buffer in
  let buffer := default [] (last lines) in
  let lines := removelast lines in
  (buffer, for_lines handle lines s).

(** The whole loop, [reads] being the chunks the reader delivers before
    it reports [done]. *)
Fixpoint read_loop {S : Type} (handle : StreamEvent -> S -> S)
  (reads : list jsstring) (buffer : jsstring) (s : S) : completion S :=
  match reads with
  | [] => Normal s
  | value :: reads' =>
      match loop_body handle buffer value s with
      | (buffer', Normal s') => read_loop handle reads' buffer' s'
      | (_, Throw s') => Throw s'
      end
  end.

(** The handler that only collects the records it is given. *)
Definition collect (data : StreamEvent) (fs : list StreamEvent) : list StreamEvent :=
  fs ++ [data].

(** The records handed to the handler, in order. *)
Definition frames (reads : list jsstring) : completion (list StreamEvent) :=
  read_loop collect reads [] [].

(** [sendMessage] up to [await fetch]. *)
Definition sendMessage (w : World) : World :=
  let message := trim (messageInput w) in
  if negb (truthy message) || isStreaming w then w
  else
    let w := set_messageInput [] w in
    let w := addMessage message user w in
    let w := set_isStreaming true w in
    let w := set_currentMessage [] w in
    let w := setAvatarState thinking w in
    let contentElement := length (messages w) in
    let w := set_messages (messages w ++ [(assistant, [])]) w in
    let w := push_call (Fetch message (sessionId w)) w in
    set_turn (Some (AwaitFetch contentElement)) w.

(** The [catch] and [finally] blocks of [sendMessage]. *)
Definition sendMessage_catch (w : World) : World :=
  let w := addMessage (lit "Error: Failed to send message. Please try again.") assistant w in
  setAvatarState error w.

Definition sendMessage_finally (w : World) : World :=
  let w := set_isStreaming false w in
  let w := setAvatarState idle w in
  set_turn None w.

(** The tasks of the conversation: what the user does with the message
    box and the send button, the settling of the promises [sendMessage]
    awaits, the timer set on a complete status, and the events of the
    voice chat.  The requests [init] starts ([loadSession] with
    [createSession], [checkHealth], [loadAvailableModels]) are not
    awaited and settle in tasks of their own, which are not among
    these: module [Session] has [loadSession], and a page on which they
    have settled before the first message is sent is an [initial] one,
    since [initial] leaves the session, the messages shown and the
    status texts free.  A run in which the saved messages arrive while
    a turn is open, so that [loadMessages] removes the turn's element
    from the page, is not a run of [step]. *)
Inductive Event :=
| TypeText (value : jsstring)
| ClickSend
| FetchResolved (ok : bool)
| FetchRejected
| ReadResolved (value : option jsstring)
| ReadRejected
| IdleTimeout
| VoiceEvent (e : Voice.Event).

(** The listeners of [setupEventListeners] call the recording methods,
    [setLanguage] and [setVoiceOutputEnabled]; [speak] and [stopSpeaking]
    are called from inside the classes only. *)
Definition from_page (e : Voice.Event) : bool :=
  match e with
  | Voice.CallSpeak _ _ | Voice.CallStopSpeaking => false
  | _ => true
  end.

(** One task of the event loop. *)
Definition step (e : Event) (w : World) : World :=
  match e with
  | TypeText value => set_messageInput value w
  | ClickSend => sendMessage w
  | FetchResolved ok =>
      match turn w with
      | Some (AwaitFetch contentElement) =>
          if ok then set_turn (Some (AwaitRead contentElement [])) w
          else sendMessage_finally (sendMessage_catch w)
      | _ => w
      end
  | FetchRejected =>
      match turn w with
      | Some (AwaitFetch _) => sendMessage_finally (sendMessage_catch w)
      | _ => w
      end
  | ReadResolved (Some value) =>
      match turn w with
      | Some (AwaitRead contentElement buffer) =>
          match loop_body (fun data => handleStreamEvent data contentElement)
                          buffer value w with
          | (buffer', Normal w') => set_turn (Some (AwaitRead contentElement buffer')) w'
          | (_, Throw w') => sendMessage_finally (sendMessage_catch w')
          end
      | _ => w
      end
  | ReadResolved None =>
      match turn w with
      | Some (AwaitRead _ _) => sendMessage_finally w
      | _ => w
      end
  | ReadRejected =>
      match turn w with
      | Some (AwaitRead _ _) => sendMessage_finally (sendMessage_catch w)
      | _ => w
      end
  | IdleTimeout =>
      match idleTimers w with
      | O => w
      | S n => setAvatarState idle (set_idleTimers n w)
      end
  | VoiceEvent e =>
      match voiceChat w with
      | Some vc =>
          if from_page e then
            let '(vc', acts) := Voice.step e vc in
            perform_all acts (set_voiceChat (Some vc') w)
          else w
      | None => w
      end
  end.

Definition run (es : list Event) (w : World) : World :=
  foldl (fun w e => step e w) w es.

(** The tasks in which the reader delivers the chunks [reads]. *)
Definition reads_of (reads : list jsstring) : list Event :=
  map (fun value => ReadResolved (Some value)) reads.

End Platform.

(** A freshly constructed [ChatApp] on a loaded page: no turn, nothing
    streamed, no avatar state set yet. *)
Definition initial (w : World) : Prop :=
  currentMessage w = [] /\ isStreaming w = false /\ avatarStates w = [] /\
  turn w = None /\ idleTimers w = 0%nat /\ calls w = [].

Inductive reachable (toFixed : number -> nat -> jsstring)
  (JSON_parse : jsstring -> option StreamEvent) : World -> Prop :=
| reachable_initial w : initial w -> reachable toFixed JSON_parse w
| reachable_step e w :
    reachable toFixed JSON_parse w ->
    reachable toFixed JSON_parse (step toFixed JSON_parse e w).

(** The message element of the turn shows everything accumulated so far,
    possibly followed by an error note. *)
Definition shown (contentElement : nat) (w : World) : Prop :=
  exists rest,
    messages w !! contentElement = Some (assistant, currentMessage w ++ rest).

(** The message element the suspended activation of [sendMessage] holds. *)
Definition turn_element (t : option Turn) : option nat :=
  match t with
  | Some (AwaitFetch contentElement) => Some contentElement
  | Some (AwaitRead contentElement _) => Some contentElement
  | None => None
  end.

(** The state a block leaves, however it completes. *)
Definition outcome {S} (c : completion S) : S :=
  match c with
  | Normal s => s
  | Throw s => s
  end.

(** The arguments of the calls of [voiceChat.speak], in order. *)
Definition speak_calls (cs : list Call) : list (jsstring * jsstring) :=
  omap (fun c => match c with
                 | Speak text language => Some (text, language)
                 | _ => None
                 end) cs.

(** What holds of the controller between any two tasks: an open turn
    has the streaming flag set, the avatar shows a state other than idle
    only while the flag is set, and the element of the open turn shows
    the accumulated reply. *)
Definition consistent (w : World) : Prop :=
  (turn w <> None -> isStreaming w = true)
  /\ (isStreaming w = false -> avatar w = None \/ avatar w = Some idle)
  /\ (forall contentElement,
        turn_element (turn w) = Some contentElement -> shown contentElement w).

(** *** A sample page and a sample response

    [wire] writes the text of a payload with apostrophes standing for
    the double quotes of JSON.  [sample_parse] reads the three payloads
    of the sample response, a complete status with empty metrics and
    [null] as [JSON.parse] does, and rejects every other text;
    [sample_toFixed] renders the one latency of the sample. *)
Definition wire (s : string) : jsstring :=
  map (fun c => if c =? 39 then 34 else c) (lit s).

Definition sample_parse (text : jsstring) : option StreamEvent :=
  if strictEq text (wire "{'type':'token','content':'Hi'}")
  then Some (token (lit "Hi"))
  else if strictEq text (wire "{'type':'token','content':' there'}")
  then Some (token (lit " there"))
  else if strictEq text
            (wire "{'type':'status','state':'complete','metrics':{'latency':0.42}}")
  then Some (status (lit "complete") (Some (42 # 100)) None)
  else if strictEq text (wire "{'type':'status','state':'complete','metrics':{}}")
  then Some (status_without_latency (lit "complete") None)
  else if strictEq text (lit "null")
  then Some null_record
  else None.

Definition sample_toFixed (x : number) (digits : nat) : jsstring := lit "0.42".

Definition fresh_page : World :=
  {| sessionId := Some (lit "session-1");
     currentMessage := [];
     isStreaming := false;
     voiceChat := Some Voice.sample_VoiceChat;
     messageInput := [];
     messages := [];
     avatarStates := [];
     statusText := {[ "latency" := [] ]};
     turn := None;
     idleTimers := 0;
     calls := [] |}.

(** The sample response cut in the middle of its second line. *)
Definition sample_reads : list jsstring :=
  [lit "data: " ++ wire "{'type':'token','content':'Hi'}" ++ [10] ++ lit "da";
   lit "ta: " ++ wire "{'type':'token','content':' there'}" ++ [10]
     ++ lit "data: "
     ++ wire "{'type':'status','state':'complete','metrics':{'latency':0.42}}"
     ++ [10]].

(** The sample page after "Hello" was sent and the first token arrived. *)
Definition streaming_page : World :=
  run sample_toFixed sample_parse
    [TypeText (lit "Hello"); ClickSend; FetchResolved true;
     ReadResolved (Some (lit "data: " ++ wire "{'type':'token','content':'Hi'}" ++ [10]))]
    fresh_page.

(** A chunk whose only line carries the marker and a truncated record. *)
Definition malformed_line : jsstring := lit "data: " ++ wire "{'type':'token','content".

(** The sample page before any session is known. *)
Definition fresh_page_without_session : World :=
  {| sessionId := None;
     currentMessage := [];
     isStreaming := false;
     voiceChat := Some Voice.sample_VoiceChat;
     messageInput := [];
     messages := [];
     avatarStates := [];
     statusText := {[ "connectionStatus" := [] ]};
     turn := None;
     idleTimers := 0;
     calls := [] |}.

(** *** Measures of a list of frames *)

(** The contents of the token frames, concatenated in order. *)
Definition token_text (fs : list StreamEvent) : jsstring :=
  concat (omap (fun data => match data with
                            | token content => Some content
                            | _ => None
                            end) fs).

(** The JSON value [null]. *)
Definition is_null (data : StreamEvent) : bool :=
  match data with
  | null_record => true
  | _ => false
  end.

(** A status frame whose state is ['complete'] and which is handled to
    its end. *)
Definition is_complete (data : StreamEvent) : bool :=
  match data with
  | status state _ _ => strictEq state (lit "complete")
  | _ => false
  end.

Definition count_complete (fs : list StreamEvent) : nat :=
  length (filter (fun data => is_complete data = true) fs).

(** An event after which a turn is over: the flag is cleared, no
    activation waits, the avatar shows idle. *)
Definition releases (toFixed : number -> nat -> jsstring)
  (JSON_parse : jsstring -> option StreamEvent) (e : Event) (w : World) : Prop :=
  isStreaming (step toFixed JSON_parse e w) = false
  /\ turn (step toFixed JSON_parse e w) = None
  /\ avatar (step toFixed JSON_parse e w) = Some idle.

(** The second line of the sample response, as one chunk. *)
Definition second_line : jsstring :=
  lit "data: " ++ wire "{'type':'token','content':' there'}".

(** A chunk that brings the second line of the sample response and,
    after it, a line with a truncated record. *)
Definition broken_chunk : jsstring :=
  second_line ++ [10] ++ malformed_line ++ [10].

(** A complete status whose metrics hold no latency, and the chunk that
    brings it after the second line of the sample response. *)
Definition status_line : jsstring :=
  lit "data: " ++ wire "{'type':'status','state':'complete','metrics':{}}".

Definition unmeasured_chunk : jsstring :=
  second_line ++ [10] ++ status_line ++ [10].

End App.

(** ** app.js: the listeners of the record button *)

Module Buttons.

Import Voice.

(** The locals [pressTimer] and [isHolding] of [setupEventListeners], and
    the timers of the page: [scheduled] holds the ids of the timers that
    were set and have neither elapsed nor been cleared, [nextTimer] is
    the id the next [setTimeout] returns (ids are positive, so a stored
    id is truthy). *)
Record Gesture := {
  pressTimer : option nat;
  isHolding : bool;
  scheduled : gset nat;
  nextTimer : nat
}.

Record Page := {
  gesture : Gesture;
  voice : VoiceChat
}.

(** The events of the button, the elapsing of a timer, and whatever
    happens to the [VoiceChat] from elsewhere. *)
Inductive Event :=
| Click (startThrows : bool)
| MouseDown
| MouseUp
| MouseLeave
| TouchStart
| TouchEnd
| Elapsed (id : nat) (startThrows : bool)
| Other (e : Voice.Event).

(** [mousedown] and [touchstart]: [isHolding = true] and
    [pressTimer = setTimeout(..., 300)]. *)
Definition press (g : Gesture) : Gesture :=
  {| pressTimer := Some (nextTimer g);
     isHolding := true;
     scheduled := scheduled g ∪ {[ nextTimer g ]};
     nextTimer := S (nextTimer g) |}.

(** [mouseup], [mouseleave] and [touchend]: [isHolding = false], and the
    timer is cleared when [pressTimer] is set. *)
Definition release (g : Gesture) : Gesture :=
  match pressTimer g with
  | Some id =>
      {| pressTimer := None;
         isHolding := false;
         scheduled := scheduled g ∖ {[ id ]};
         nextTimer := nextTimer g |}
  | None =>
      {| pressTimer := None;
         isHolding := false;
         scheduled := scheduled g;
         nextTimer := nextTimer g |}
  end.

Definition step (e : Event) (p : Page) : Page * list Action :=
  match e with
  | Click startThrows =>
      if negb (isHolding (gesture p)) then
        let '(vc, acts) :=
          if isRecording (voice p) then stopRecording (voice p)
          else startRecording startThrows (voice p) in
        ({| gesture := gesture p; voice := vc |}, acts)
      else (p, [])
  | MouseDown | TouchStart => ({| gesture := press (gesture p); voice := voice p |}, [])
  | MouseUp | MouseLeave | TouchEnd =>
      ({| gesture := release (gesture p); voice := voice p |}, [])
  | Elapsed id startThrows =>
      if bool_decide (id ∈ scheduled (gesture p)) then
        let g := {| pressTimer := pressTimer (gesture p);
                    isHolding := isHolding (gesture p);
                    scheduled := scheduled (gesture p) ∖ {[ id ]};
                    nextTimer := nextTimer (gesture p) |} in
        if negb (isRecording (voice p)) then
          let '(vc, acts) := startRecording startThrows (voice p) in
          ({| gesture := g; voice := vc |}, acts)
        else ({| gesture := g; voice := voice p |}, [])
      else (p, [])
  | Other e =>
      let '(vc, acts) := Voice.step e (voice p) in
      ({| gesture := gesture p; voice := vc |}, acts)
  end.

Fixpoint run (es : list Event) (p : Page) : Page * list Action :=
  match es with
  | [] => (p, [])
  | e :: es' =>
      let '(p1, acts1) := step e p in
      let '(p2, acts2) := run es' p1 in
      (p2, acts1 ++ acts2)
  end.

(** A page at rest: nothing pressed, no timer set. *)
Definition sample_Page : Page :=
  {| gesture := {| pressTimer := None; isHolding := false;
                   scheduled := ∅; nextTimer := 1 |};
     voice := sample_VoiceChat |}.

End Buttons.

(** ** app.js: loading and creating the session *)

Module Session.

Import App.

Definition set_sessionId (x : option jsstring) (w : World) : World :=
  {| sessionId := x; currentMessage := currentMessage w; isStreaming := isStreaming w;
     voiceChat := voiceChat w; messageInput := messageInput w; messages := messages w;
     avatarStates := avatarStates w; statusText := statusText w; turn := turn w;
     idleTimers := idleTimers w; calls := calls w |}.

(** How one [fetch] ends: the promise rejects, or a response arrives
    with its [ok] flag and the value of [response.json()] ([None]: that
    promise rejects). *)
Inductive Fetched (A : Type) :=
| Rejected
| Responded (ok : bool) (json : option A).
Arguments Rejected {A}.
Arguments Responded {A} ok json.

Inductive Request :=
| GetSession (id : jsstring)
| PostSession.

(** The controller with the [localStorage] of the page and the session
    requests made so far. *)
Record Browser := {
  world : World;
  localStorage : gmap string jsstring;
  requests : list Request
}.

(** [loadMessages(messages)], every message having one of the two roles. *)
Definition loadMessages (msgs : list (Role * jsstring)) (w : World) : World :=
  foldl (fun w msg => addMessage msg.2 msg.1 w) (set_messages [] w) msgs.

(** [createSession()], [post] being how its request ends and the
    [session_id] of the answer. *)
Definition createSession (post : Fetched jsstring) (b : Browser) : Browser :=
  let requests' := requests b ++ [PostSession] in
  match post with
  | Responded true (Some session_id) =>
      {| world := set_sessionId (Some session_id) (world b);
         localStorage := <["sessionId" := session_id]> (localStorage b);
         requests := requests' |}
  | _ =>
      {| world := updateStatus "connectionStatus" (lit "Error") (world b);
         localStorage := localStorage b;
         requests := requests' |}
  end.

(** [loadSession()], [get] being how the request for the saved session
    ends, with the [messages] field of the answer ([None] inside: the
    field is missing), and [post] how the request of [createSession]
    ends when it is made. *)
Definition loadSession (get : Fetched (option (list (Role * jsstring))))
  (post : Fetched jsstring) (b : Browser) : Browser :=
  match localStorage b !! "sessionId" with
  | Some savedSessionId =>
      if truthy savedSessionId then
        let b := {| world := world b; localStorage := localStorage b;
                    requests := requests b ++ [GetSession savedSessionId] |} in
        match get with
        | Responded true json =>
            let b := {| world := set_sessionId (Some savedSessionId) (world b);
                        localStorage := localStorage b;
                        requests := requests b |} in
            match json with
            | Some data =>
                {| world := loadMessages (default [] data) (world b);
                   localStorage := localStorage b;
                   requests := requests b |}
            | None => createSession post b
            end
        | _ => createSession post b
        end
      else createSession post b
  | None => createSession post b
  end.

(** A browser that kept the id of an earlier visit. *)
Definition returning_Browser : Browser :=
  {| world := fresh_page_without_session;
     localStorage := {[ "sessionId" := lit "session-0" ]};
     requests := [] |}.

End Session.

(** ** matrix.js: the particles of the background *)

Module Matrix.

(** Numbers are doubles in the source and rationals here.  The
    properties proved below rest on the comparisons the code makes and
    on bounds that rounding to nearest keeps, being bounds by
    representable numbers. *)
Record Canvas := {
  width : Q;
  height : Q
}.

Record Particle := {
  x : Q;
  y : Q;
  speed : Q;
  size : Q;
  opacity : Q;
  life : Q
}.

(** The six values [Math.random()] returns in one [reset]. *)
Record Draws := {
  draw_x : Q;
  draw_y : Q;
  draw_speed : Q;
  draw_size : Q;
  draw_opacity : Q;
  draw_life : Q
}.

(** [Math.random()] returns a number in [0, 1). *)
Definition unit_draw (r : Q) : Prop := (0 <= r /\ r < 1)%Q.

Definition unit_draws (d : Draws) : Prop :=
  unit_draw (draw_x d) /\ unit_draw (draw_y d) /\ unit_draw (draw_speed d)
  /\ unit_draw (draw_size d) /\ unit_draw (draw_opacity d) /\ unit_draw (draw_life d).

Definition reset (canvas : Canvas) (d : Draws) : Particle :=
  {| x := draw_x d * width canvas;
     y := draw_y d * height canvas;
     speed := draw_speed d * 2 + 1;
     size := draw_size d * 2 + 1;
     opacity := draw_opacity d * (5 # 10) + (2 # 10);
     life := draw_life d * 100 + 50 |}.

(** [update()], [d] being the draws of the [reset] it may call. *)
Definition update (canvas : Canvas) (d : Draws) (p : Particle) : Particle :=
  let y' := (y p + speed p)%Q in
  let life' := (life p - 1)%Q in
  if Qgt_bool y' (height canvas) || Qle_bool life' 0 then
    let p := reset canvas d in
    {| x := x p; y := 0; speed := speed p; size := size p;
       opacity := opacity p; life := life p |}
  else
    {| x := x p; y := y'; speed := speed p; size := size p;
       opacity := opacity p; life := life' |}.

(** [updates canvas ds p]: one [update] per frame, with the draws of
    each frame. *)
Definition updates (canvas : Canvas) (ds : list Draws) (p : Particle) : Particle :=
  foldl (fun p d => update canvas d p) p ds.

(** What [reset] establishes and [update] keeps. *)
Definition in_range (canvas : Canvas) (p : Particle) : Prop :=
  (0 <= x p /\ x p <= width canvas /\ 0 <= y p /\ y p <= height canvas
   /\ 1 <= speed p /\ speed p <= 3 /\ 1 <= size p /\ size p <= 3
   /\ (2 # 10) <= opacity p /\ opacity p <= (7 # 10)
   /\ 0 < life p /\ life p <= 150)%Q.

Definition sample_Canvas : Canvas := {| width := 800; height := 600 |}.

Definition sample_Draws : Draws :=
  {| draw_x := 1 # 2; draw_y := 1 # 4; draw_speed := 1 # 2; draw_size := 0;
     draw_opacity := 3 # 4; draw_life := 1 # 10 |}.

End Matrix.

(** * Properties *)

(** ** Strings *)

Section StringFacts.

Import JS.

Lemma strictEq_refl (a : jsstring) : strictEq a a = true.
Proof. unfold strictEq. by apply bool_decide_eq_true_2. Qed.

Lemma trimStart_blank (s : jsstring) :
  forallb isWhiteSpace s = true -> trimStart s = [].
Proof.
  induction s as [|c s IH]; simpl; [done|].
  intros [Hc Hs]%andb_prop. rewrite Hc. auto.
Qed.

Lemma trim_blank (s : jsstring) :
  forallb isWhiteSpace s = true -> trim s = [].
Proof.
  intros H. unfold trim, trimEnd. by rewrite (trimStart_blank s H).
Qed.

Lemma split_nl_nonempty (s : jsstring) : split_nl s <> [].
Proof.
  induction s as [|c s IH]; simpl; [done|].
  destruct (c =? 10); [done|]. by destruct (split_nl s).
Qed.

Lemma split_nl_cons (c : N) (s : jsstring) :
  split_nl (c :: s) = if c =? 10 then [] :: split_nl s else cons_head c (split_nl s).
Proof. reflexivity. Qed.

Lemma removelast_cons {A} (x : A) (l : list A) :
  l <> [] -> removelast (x :: l) = x :: removelast l.
Proof. by destruct l. Qed.

Lemma last_cons_cons' {A} (x : A) (l : list A) :
  l <> [] -> last (x :: l) = last l.
Proof. by destruct l. Qed.

Lemma split_nl_app (a b : jsstring) :
  split_nl (a ++ b) = complete_lines a ++ split_nl (pending a ++ b).
Proof.
  unfold complete_lines, pending.
  induction a as [|c a IH]; [done|].
  rewrite <- app_comm_cons, !split_nl_cons.
  pose proof (split_nl_nonempty a) as Hne.
  destruct (c =? 10) eqn:Hc.
  - rewrite removelast_cons, last_cons_cons' by done. simpl. by rewrite IH.
  - rewrite IH. destruct (split_nl a) as [|l [|l' ls]]; [done| |done].
    simpl. by rewrite Hc.
Qed.

Lemma pending_no_newline (s : jsstring) : 10 ∉ pending s.
Proof.
  unfold pending. induction s as [|c s IH]; simpl.
  - apply not_elem_of_nil.
  - pose proof (split_nl_nonempty s) as Hne.
    destruct (c =? 10) eqn:Hc.
    + by rewrite last_cons_cons'.
    + destruct (split_nl s) as [|l [|l' ls]]; [done| |done].
      simpl in *. apply not_elem_of_cons. split; [|done].
      intros Heq. rewrite <- Heq in Hc. done.
Qed.

Lemma split_nl_no_newline (s : jsstring) : 10 ∉ s -> split_nl s = [s].
Proof.
  induction s as [|c s IH]; [done|].
  intros [Hc Hs]%not_elem_of_cons. simpl.
  destruct (N.eqb_spec c 10); [congruence|]. by rewrite IH.
Qed.

Lemma complete_lines_no_newline (s : jsstring) : 10 ∉ s -> complete_lines s = [].
Proof. intros H. unfold complete_lines. by rewrite split_nl_no_newline. Qed.

Lemma pending_id (s : jsstring) : 10 ∉ s -> pending s = s.
Proof. intros H. unfold pending. by rewrite split_nl_no_newline. Qed.

Lemma complete_lines_app (a b : jsstring) :
  complete_lines (a ++ b) = complete_lines a ++ complete_lines (pending a ++ b).
Proof.
  unfold complete_lines at 1. rewrite split_nl_app.
  rewrite removelast_app by apply split_nl_nonempty. done.
Qed.

Lemma pending_app (a b : jsstring) : pending (a ++ b) = pending (pending a ++ b).
Proof.
  unfold pending at 1. rewrite split_nl_app.
  pose proof (split_nl_nonempty (pending a ++ b)) as Hne.
  destruct (split_nl (pending a ++ b)) as [|l ls] eqn:E; [done|].
  rewrite last_app_cons. unfold pending at 1. by rewrite E.
Qed.

Lemma split_nl_newline_end (s : jsstring) :
  split_nl (s ++ [10]) = split_nl s ++ [[]].
Proof.
  induction s as [|c s IH]; [done|].
  rewrite <- app_comm_cons, !split_nl_cons, IH.
  destruct (c =? 10); [done|].
  pose proof (split_nl_nonempty s). by destruct (split_nl s).
Qed.

End StringFacts.

(** ** VoiceChat *)

Section VoiceChatFacts.

Import Voice.

Lemma stopRecording_state (this : VoiceChat) : fst (stopRecording this) = this.
Proof. unfold stopRecording. by destruct (_ && _). Qed.

Lemma startRecording_state b (this : VoiceChat) : fst (startRecording b this) = this.
Proof.
  unfold startRecording. destruct (recognition this); [|done].
  destruct (isRecording this); [apply stopRecording_state|]. by destruct b.
Qed.

(** [isRecording] is set by the [onstart] callback only, which exists
    only on a recognition object. *)
Lemma recording_has_recognition (this : VoiceChat) :
  reachable this -> isRecording this = true -> is_Some (recognition this).
Proof.
  induction 1 as [window this Hnew|e this Hr IH].
  - unfold new_VoiceChat in Hnew.
    destruct (hasSpeechRecognition window); simpl in Hnew.
    + destruct (speechSynthesis window); [|done].
      injection Hnew as <-. done.
    + injection Hnew as <-. done.
  - destruct e; simpl.
    + by rewrite startRecording_state.
    + by rewrite stopRecording_state.
    + unfold setLanguage. simpl.
      destruct (recognition this) eqn:E; simpl; rewrite ?E; [by eexists|done].
    + unfold speak. destruct (_ || _); [done|].
      destruct (getVoiceForLanguage _ this); done.
    + unfold stopSpeaking. by destruct (synthesis this).
    + unfold setVoiceOutputEnabled, stopSpeaking. simpl.
      destruct enabled; simpl; [done|]. by destruct (synthesis this).
    + destruct (recognition this) eqn:E; simpl; rewrite ?E; [by eexists|done].
    + destruct (recognition this) eqn:E; simpl; rewrite ?E; done.
    + destruct (recognition this) eqn:E; [|simpl; by rewrite E].
      destruct (stopRecording this) as [this' acts] eqn:Es. simpl.
      pose proof (stopRecording_state this) as Hs. rewrite Es in Hs. simpl in Hs.
      subst this'. rewrite E. by eexists.
    + destruct (recognition this) eqn:E; simpl; rewrite ?E; done.
    + destruct (recognition this) eqn:E; simpl; rewrite ?E; [by eexists|done].
    + done.
    + done.
Qed.

(** C7.  In every state a [VoiceChat] can reach in which [isRecording]
    is true, [startRecording] starts nothing: it leaves the object as it
    is and its only call on the platform is one [recognition.stop()]. *)
Theorem startRecording_while_recording (this : VoiceChat) (startThrows : bool) :
  reachable this ->
  isRecording this = true ->
  startRecording startThrows this = (this, [RecognitionStop]).
Proof.
  intros Hr Hrec. destruct (recording_has_recognition this Hr Hrec) as [r Hrecog].
  unfold startRecording, stopRecording. by rewrite Hrecog, Hrec.
Qed.

Lemma getVoiceForLanguage_none (this : VoiceChat) (language : jsstring) :
  voices this = None \/ voices this = Some [] ->
  getVoiceForLanguage language this = None.
Proof. unfold getVoiceForLanguage. by intros [-> | ->]. Qed.

(** C8, as amended.  When voice output is disabled, or when the voice
    list is empty or was never loaded, [speak] returns without creating
    an utterance and leaves the object, its current-utterance slot
    included, as it is.  It calls nothing when output is disabled or when
    no utterance is current; with output enabled, synthesis available
    and an utterance current, its one call is [synthesis.cancel()]. *)
Theorem speak_disabled_or_voiceless (this : VoiceChat) (text : jsstring)
  (language : option jsstring) :
  voiceOutputEnabled this = false \/ voices this = None \/ voices this = Some [] ->
  fst (speak text language this) = this
  /\ (forall utterance, SynthesisSpeak utterance ∉ snd (speak text language this))
  /\ (voiceOutputEnabled this = false \/ currentUtterance this = None ->
      speak text language this = (this, []))
  /\ (voiceOutputEnabled this = true -> synthesis this = true ->
      is_Some (currentUtterance this) ->
      speak text language this = (this, [SynthesisCancel])).
Proof.
  intros H. unfold speak.
  destruct (voiceOutputEnabled this) eqn:Hen; simpl.
  - destruct H as [H|H]; [done|].
    destruct (synthesis this); simpl.
    + rewrite (getVoiceForLanguage_none this _ H).
      destruct (currentUtterance this); simpl.
      * split_and!; [done| |by intros [?|?]|done].
        intros u [Hu|Hu]%elem_of_cons; [done|by apply elem_of_nil in Hu].
      * split_and!; [done| |done|by intros _ _ [? ?]].
        intros u Hu. by apply elem_of_nil in Hu.
    + split_and!; [done| |done|done]. intros u Hu. by apply elem_of_nil in Hu.
  - split_and!; [done| |done|done]. intros u Hu. by apply elem_of_nil in Hu.
Qed.

End VoiceChatFacts.

(** ** The language classifier *)

Example detectLanguageFromText_hello :
  detectLanguageFromText (lit "Hello world") = lit "en".
Proof. reflexivity. Qed.

Example detectLanguageFromText_empty : detectLanguageFromText [] = lit "en".
Proof. reflexivity. Qed.

(** The match array of a regular expression without the [g] flag has at
    most one element. *)
Lemma match_class_length (cls : N -> bool) (text : jsstring) :
  (length (default [] (match_class cls text)) <= 1)%nat.
Proof.
  induction text as [|c text IH]; simpl; [lia|].
  destruct (cls c); simpl; [lia|done].
Qed.

(** So every text with more than three code units outside white space is
    classified as English, whatever its script. *)
Lemma detectLanguageFromText_long (text : jsstring) :
  (3 < length (remove_class isWhiteSpace text))%nat ->
  detectLanguageFromText text = lit "en".
Proof.
  intros Hlen. unfold detectLanguageFromText.
  pose proof (match_class_length devanagariRegex text) as Hc.
  set (count := length (default [] (match_class devanagariRegex text))) in *.
  set (total := length (remove_class isWhiteSpace text)) in *.
  destruct (Nat.eqb total 0); [done|].
  destruct (Nat.eqb count 0); [done|].
  assert (Qle_bool (Z.of_nat count # Pos.of_nat total) (3 # 10) = true) as Hq.
  { apply Qle_bool_iff. unfold Qle. simpl.
    assert (Z.pos (Pos.of_nat total) = Z.of_nat total) as ->.
    { destruct total as [|n]; [lia|]. rewrite <- Pos.of_nat_succ. lia. }
    lia. }
  unfold Qgt_bool. by rewrite Hq.
Qed.

(** C1.  On the specification's own test vector, thirteen code units of
    which twelve are Devanagari, the classifier answers ['en']: the
    non-global match counts one Devanagari code unit at most, so the
    ratio is 1/12.  Counting every Devanagari code unit, as the
    specification words the algorithm, gives ['hi']. *)
Theorem detectLanguageFromText_namaste :
  detectLanguageFromText namaste_duniya = lit "en"
  /\ classify_spec namaste_duniya = lit "hi".
Proof. split; vm_compute; reflexivity. Qed.

(** ** The reading loop *)

Section ReadingLoop.

Import App.

Variable JSON_parse : jsstring -> option StreamEvent.

Abbreviation for_lines := (for_lines JSON_parse).
Abbreviation loop_body := (loop_body JSON_parse).
Abbreviation read_loop := (read_loop JSON_parse).

Lemma loop_body_eq {S} (handle : StreamEvent -> S -> S) buffer value s :
  loop_body handle buffer value s =
  (pending (buffer ++ value), for_lines handle (complete_lines (buffer ++ value)) s).
Proof. reflexivity. Qed.

Lemma for_lines_cons {S} (handle : StreamEvent -> S -> S) line lines s :
  for_lines handle (line :: lines) s =
  if startsWith (lit "data: ") line then
    match JSON_parse (slice 6 line) with
    | Some data =>
        if throws data then Throw (handle data s)
        else for_lines handle lines (handle data s)
    | None => Throw s
    end
  else for_lines handle lines s.
Proof. reflexivity. Qed.

Lemma for_lines_app {S} (handle : StreamEvent -> S -> S) l1 l2 s :
  for_lines handle (l1 ++ l2) s =
  and_then (for_lines handle l1 s) (for_lines handle l2).
Proof.
  revert s. induction l1 as [|line l1 IH]; intros s; [done|].
  rewrite <- app_comm_cons, !for_lines_cons.
  destruct (startsWith (lit "data: ") line); [|apply IH].
  destruct (JSON_parse (slice 6 line)) as [data|]; [|done].
  destruct (throws data); [done|apply IH].
Qed.

(** The loop over a whole sequence of reads handles the complete lines
    of the concatenated text, once each and in order. *)
Lemma read_loop_concat {S} (handle : StreamEvent -> S -> S) reads buffer s :
  10 ∉ buffer ->
  read_loop handle reads buffer s =
  for_lines handle (complete_lines (buffer ++ concat reads)) s.
Proof.
  revert buffer s. induction reads as [|value reads IH]; intros buffer s Hb.
  - simpl. rewrite app_nil_r, complete_lines_no_newline; done.
  - cbn [App.read_loop concat]. rewrite loop_body_eq.
    rewrite app_assoc, (complete_lines_app (buffer ++ value) (concat reads)), for_lines_app.
    destruct (for_lines handle (complete_lines (buffer ++ value)) s) as [s'|s']; [|done].
    simpl. apply IH, pending_no_newline.
Qed.

Lemma for_lines_rel {S1 S2} (R : S1 -> S2 -> Prop) h1 h2 lines s1 s2 :
  (forall data s1 s2, R s1 s2 -> R (h1 data s1) (h2 data s2)) ->
  R s1 s2 ->
  completion_rel R (for_lines h1 lines s1) (for_lines h2 lines s2).
Proof.
  intros Hh. revert s1 s2.
  induction lines as [|line lines IH]; intros s1 s2 HR; [done|].
  rewrite !for_lines_cons.
  destruct (startsWith (lit "data: ") line); [|by apply IH].
  destruct (JSON_parse (slice 6 line)) as [data|]; [|done].
  destruct (throws data); [by apply Hh|by apply IH, Hh].
Qed.

Lemma read_loop_rel {S1 S2} (R : S1 -> S2 -> Prop) h1 h2 reads buffer s1 s2 :
  (forall data s1 s2, R s1 s2 -> R (h1 data s1) (h2 data s2)) ->
  R s1 s2 ->
  completion_rel R (read_loop h1 reads buffer s1) (read_loop h2 reads buffer s2).
Proof.
  intros Hh. revert buffer s1 s2.
  induction reads as [|value reads IH]; intros buffer s1 s2 HR; [done|].
  cbn [App.read_loop]. rewrite !loop_body_eq.
  pose proof (for_lines_rel R h1 h2 (complete_lines (buffer ++ value)) s1 s2 Hh HR) as H.
  destruct (for_lines h1 _ s1), (for_lines h2 _ s2); simpl in H; try done.
  by apply IH.
Qed.

(** Any handler is run on exactly the records of [frames]. *)
Lemma read_loop_frames {S} (handle : StreamEvent -> S -> S) reads s :
  read_loop handle reads [] s =
  completion_map (fun fs => handle_all handle fs s) (frames JSON_parse reads).
Proof.
  unfold frames.
  pose proof (read_loop_rel (fun fs s' => s' = handle_all handle fs s)
                collect handle reads [] [] s) as H.
  destruct (App.read_loop _ _ reads [] []), (read_loop handle reads [] s);
    simpl in *; try (exfalso; apply H; [|done]); try (f_equal; apply H; [|done]).
  all: intros data fs s' ->; unfold handle_all, collect; by rewrite foldl_app.
Qed.

(** The same within one chunk: the handler has been run on the records
    [collect] gathers, and the loop is left the same way. *)
Lemma for_lines_frames {S} (handle : StreamEvent -> S -> S) lines s :
  for_lines handle lines s =
  completion_map (fun fs => handle_all handle fs s) (for_lines collect lines []).
Proof.
  pose proof (for_lines_rel (fun fs s' => s' = handle_all handle fs s)
                collect handle lines [] s) as H.
  destruct (App.for_lines _ collect lines []), (for_lines handle lines s);
    simpl in *; try (exfalso; apply H; [|done]); try (f_equal; apply H; [|done]).
  all: intros data fs s' ->; unfold handle_all, collect; by rewrite foldl_app.
Qed.

(** C2.  However the text of the stream is cut into chunks, the reading
    loop (append the chunk to the buffer, split on newline, keep the last
    element as the new buffer) hands the same records, in the same order,
    to its handler as it does when the whole text arrives as one chunk;
    this holds for one chunk per code unit in particular, and for every
    handler and state, so also for the list of decoded frames. *)
Theorem chunking_invariance {S} (handle : StreamEvent -> S -> S)
  (reads : list jsstring) (stream : jsstring) (s : S) :
  read_loop handle reads [] s = read_loop handle [concat reads] [] s
  /\ frames JSON_parse reads = frames JSON_parse [concat reads]
  /\ frames JSON_parse (map (fun c => [c]) stream) = frames JSON_parse [stream].
Proof.
  assert (forall T (h : StreamEvent -> T -> T) rs t,
             read_loop h rs [] t = read_loop h [concat rs] [] t) as Hall.
  { intros T h rs t. rewrite !read_loop_concat by apply not_elem_of_nil.
    simpl. by rewrite app_nil_r. }
  split; [apply Hall|]. split; [apply Hall|].
  unfold frames. rewrite Hall. do 2 f_equal.
  induction stream as [|c stream IH]; [done|]. simpl. by rewrite IH.
Qed.

(** C6.  Within one iteration of the reading loop, the text after the
    last newline is not handled: it is kept whole as the new buffer, and
    the lines handled are those before that newline, whatever the
    trailing text is.  When the chunk ends at a newline the new buffer is
    empty and the same lines are handled, none being added for the empty
    remainder.  The buffer never holds a newline, a chunk without newline
    is only appended to it, and a line that does not start with the
    marker is skipped. *)
Theorem trailing_line_is_retained {S} (handle : StreamEvent -> S -> S)
  (buffer value tail : jsstring) (s : S) :
  10 ∉ tail ->
  (loop_body handle buffer (value ++ [10] ++ tail) s
     = (tail, for_lines handle (split_nl (buffer ++ value)) s))
  /\ (loop_body handle buffer (value ++ [10]) s
      = ([], for_lines handle (split_nl (buffer ++ value)) s))
  /\ (10 ∉ fst (loop_body handle buffer value s))
  /\ (10 ∉ buffer -> loop_body handle buffer tail s = (buffer ++ tail, Normal s))
  /\ (forall line lines,
        startsWith (lit "data: ") line = false ->
        for_lines handle (line :: lines) s = for_lines handle lines s).
Proof.
  intros Htail.
  assert (complete_lines ((buffer ++ value) ++ [10]) = split_nl (buffer ++ value)) as Hc.
  { unfold complete_lines. rewrite split_nl_newline_end.
    rewrite removelast_app by done. simpl. by rewrite app_nil_r. }
  assert (pending ((buffer ++ value) ++ [10]) = []) as Hp.
  { unfold pending. rewrite split_nl_newline_end. by rewrite last_snoc. }
  repeat split.
  - rewrite loop_body_eq.
    replace (buffer ++ value ++ [10] ++ tail) with (((buffer ++ value) ++ [10]) ++ tail)
      by (by rewrite <- !app_assoc).
    rewrite pending_app, complete_lines_app, Hp, Hc. simpl.
    rewrite pending_id, complete_lines_no_newline by done.
    by rewrite app_nil_r.
  - rewrite loop_body_eq, app_assoc, Hp, Hc. done.
  - rewrite loop_body_eq. apply pending_no_newline.
  - intros Hb. rewrite loop_body_eq.
    assert (10 ∉ buffer ++ tail) as Hbt by (rewrite elem_of_app; tauto).
    by rewrite pending_id, complete_lines_no_newline.
  - intros line lines Hm. by rewrite for_lines_cons, Hm.
Qed.

End ReadingLoop.

(** ** ChatApp *)

Section ChatAppFacts.

Import App.

Variable toFixed : number -> nat -> jsstring.
Variable JSON_parse : jsstring -> option StreamEvent.

Abbreviation handleStreamEvent := (handleStreamEvent toFixed).
Abbreviation step := (step toFixed JSON_parse).
Abbreviation run := (run toFixed JSON_parse).
Abbreviation reachable := (reachable toFixed JSON_parse).

(** Reduction of the field updates and projections of a [World]. *)
Ltac world_simpl :=
  cbn [sessionId currentMessage isStreaming voiceChat messageInput messages
       avatarStates statusText turn idleTimers calls
       set_currentMessage set_isStreaming set_voiceChat set_messageInput
       set_messages set_avatarStates set_statusText set_turn set_idleTimers
       set_calls push_call addMessage setAvatarState setTextContent
       sendMessage_catch sendMessage_finally fst snd].

(** The calls of [VoiceChat] are appended to the record of calls and
    touch nothing of the page but the message box. *)
Lemma perform_all_spec (acts : list Voice.Action) (w : World) :
  perform_all acts w =
  set_messageInput (input_after acts (messageInput w))
    (set_calls (calls w ++ map VoiceAction acts) w).
Proof.
  revert w. induction acts as [|a acts IH]; intros w.
  - destruct w. unfold set_messageInput, set_calls. simpl. by rewrite app_nil_r.
  - change (perform_all (a :: acts) w) with (perform_all acts (perform a w)).
    rewrite IH. destruct w, a; unfold set_messageInput, set_calls; simpl;
      by rewrite <- app_assoc.
Qed.

Lemma handleStreamEvent_frame (data : StreamEvent) (ce : nat) (w : World) :
  isStreaming (handleStreamEvent data ce w) = isStreaming w
  /\ turn (handleStreamEvent data ce w) = turn w
  /\ sessionId (handleStreamEvent data ce w) = sessionId w.
Proof.
  unfold App.handleStreamEvent, updateStatus, voiceChat_speak.
  repeat case_match; rewrite ?perform_all_spec; done.
Qed.

Lemma handleStreamEvent_set_turn (data : StreamEvent) (ce : nat) t (w : World) :
  handleStreamEvent data ce (set_turn t w) = set_turn t (handleStreamEvent data ce w).
Proof.
  unfold App.handleStreamEvent, updateStatus, voiceChat_speak.
  destruct w; simpl.
  repeat (case_match; simpl in *; simplify_eq); rewrite ?perform_all_spec; done.
Qed.

Lemma for_lines_outcome {S} (Q : S -> Prop) (h : StreamEvent -> S -> S) lines s :
  (forall data s, Q s -> Q (h data s)) ->
  Q s -> Q (outcome (App.for_lines JSON_parse h lines s)).
Proof.
  intros Hh. revert s. induction lines as [|line lines IH]; intros s HQ; [done|].
  rewrite for_lines_cons.
  destruct (startsWith (lit "data: ") line); [|by apply IH].
  destruct (JSON_parse (slice 6 line)) as [data|]; [|done].
  destruct (throws data); [by apply Hh|by apply IH, Hh].
Qed.

Lemma handleStreamEvent_shown (data : StreamEvent) (ce : nat) (w : World) :
  shown ce w ->
  shown ce (handleStreamEvent data ce w)
  /\ currentMessage w `prefix_of` currentMessage (handleStreamEvent data ce w).
Proof.
  intros [rest Hrest]. unfold shown, App.handleStreamEvent, updateStatus, voiceChat_speak.
  destruct data as [content|state metrics message| | |state message];
    [| |by eauto|by eauto|].
  - cbn [messages currentMessage setAvatarState setTextContent set_currentMessage
         set_avatarStates set_messages].
    split; [|by apply prefix_app_r].
    exists []. rewrite list_lookup_alter_eq, Hrest. simpl. by rewrite app_nil_r.
  - repeat (case_match; simpl in *; simplify_eq); rewrite ?perform_all_spec; simpl;
      try (split; [by eauto|done]).
    split; [|done]. eexists. by rewrite list_lookup_alter_eq, Hrest.
  - repeat (case_match; simpl in *; simplify_eq); simpl;
      try (split; [by eauto|done]).
    split; [|done]. eexists. by rewrite list_lookup_alter_eq, Hrest.
Qed.

(** The handler only adds to the states passed to [setAvatarState]. *)
Lemma handleStreamEvent_avatar (data : StreamEvent) (ce : nat) (w : World) :
  avatarStates w `prefix_of` avatarStates (handleStreamEvent data ce w).
Proof.
  unfold App.handleStreamEvent, updateStatus, voiceChat_speak.
  repeat (case_match; simpl in *; simplify_eq); rewrite ?perform_all_spec; simpl;
    try done; by apply prefix_app_r.
Qed.

(** What the handling of the lines of one chunk keeps, whether or not it
    throws. *)
Lemma for_lines_keeps (ce : nat) lines (w : World) :
  shown ce w ->
  let w' := outcome (App.for_lines JSON_parse (fun data => handleStreamEvent data ce) lines w) in
  isStreaming w' = isStreaming w /\ turn w' = turn w /\ shown ce w'
  /\ currentMessage w `prefix_of` currentMessage w'
  /\ avatarStates w `prefix_of` avatarStates w'.
Proof.
  intros Hs.
  apply (for_lines_outcome
           (fun w' => isStreaming w' = isStreaming w /\ turn w' = turn w /\ shown ce w'
                      /\ currentMessage w `prefix_of` currentMessage w'
                      /\ avatarStates w `prefix_of` avatarStates w')); [|done].
  intros data s (Hi & Ht & Hsh & Hp & Ha).
  destruct (handleStreamEvent_frame data ce s) as (Hi' & Ht' & _).
  destruct (handleStreamEvent_shown data ce s Hsh) as [Hsh' Hp'].
  pose proof (handleStreamEvent_avatar data ce s) as Ha'.
  split_and!; [congruence|congruence|done|by etrans|by etrans].
Qed.

Lemma finally_consistent (w : World) : consistent (sendMessage_finally w).
Proof.
  unfold consistent, sendMessage_finally, avatar. simpl.
  split; [done|split; [|done]]. intros _. right. apply last_snoc.
Qed.

Lemma step_consistent (e : Event) (w : World) : consistent w -> consistent (step e w).
Proof.
  intros Hc. pose proof Hc as (Ht & Ha & Hs).
  destruct e as [value| |ok| |[value|]| | |e]; unfold App.step.
  - done.
  - unfold sendMessage. destruct (_ || _); [exact Hc|].
    unfold consistent, avatar. simpl. split; [done|split; [done|]].
    intros ce [= <-]. exists []. unfold shown. simpl.
    by rewrite lookup_app_r, Nat.sub_diag by done.
  - destruct (turn w) as [[ce|ce buffer]|] eqn:E; [|exact Hc|exact Hc].
    destruct ok; [|apply finally_consistent].
    unfold consistent, avatar in *. simpl. rewrite E in *. simpl in *.
    split; [by auto|split; [done|]]. intros ce' [= <-]. by apply (Hs ce).
  - destruct (turn w) as [[ce|ce buffer]|] eqn:E; [|exact Hc|exact Hc].
    apply finally_consistent.
  - destruct (turn w) as [[ce|ce buffer]|] eqn:E; [exact Hc| |exact Hc].
    rewrite loop_body_eq.
    assert (shown ce w) as Hsh by (by apply Hs).
    pose proof (for_lines_keeps ce (complete_lines (buffer ++ value)) w Hsh) as Hk.
    destruct (App.for_lines _ _ _ w) as [w'|w']; [|apply finally_consistent].
    simpl in Hk. destruct Hk as (Hi & Ht' & Hsh' & _).
    assert (isStreaming w' = true) as Hw'.
    { rewrite Hi. by apply Ht. }
    unfold consistent, avatar in *. simpl.
    split; [done|split]; [by rewrite Hw'|]. by intros ce' [= <-].
  - destruct (turn w) as [[ce|ce buffer]|] eqn:E; [exact Hc| |exact Hc].
    apply finally_consistent.
  - destruct (turn w) as [[ce|ce buffer]|] eqn:E; [exact Hc| |exact Hc].
    apply finally_consistent.
  - destruct (idleTimers w); [exact Hc|].
    unfold consistent, avatar in *. simpl.
    split; [done|split; [|done]]. intros _. right. apply last_snoc.
  - destruct (voiceChat w); [|exact Hc].
    destruct (from_page e); [|exact Hc].
    destruct (Voice.step e v) as [vc' acts]. rewrite perform_all_spec. done.
Qed.

Lemma initial_consistent (w : World) : initial w -> consistent w.
Proof.
  intros (_ & Hs & Ha & Ht & _). unfold consistent, avatar.
  rewrite Ht, Ha. split; [done|split; [by left|done]].
Qed.

Lemma reachable_consistent (w : World) : reachable w -> consistent w.
Proof.
  induction 1; [by apply initial_consistent|by apply step_consistent].
Qed.

Lemma reachable_run (es : list Event) (w : World) : reachable w -> reachable (run es w).
Proof.
  revert w. induction es as [|e es IH]; intros w Hw; [done|].
  apply IH. by constructor.
Qed.

Lemma set_turn_id (w : World) t : turn w = t -> set_turn t w = w.
Proof. destruct w. simpl. by intros <-. Qed.

Lemma read_loop_set_turn t (ce : nat) reads buffer (w : World) :
  App.read_loop JSON_parse (fun data => handleStreamEvent data ce) reads buffer (set_turn t w)
  = completion_map (set_turn t)
      (App.read_loop JSON_parse (fun data => handleStreamEvent data ce) reads buffer w).
Proof.
  pose proof (read_loop_rel JSON_parse (fun a b => b = set_turn t a)
                (fun data => handleStreamEvent data ce)
                (fun data => handleStreamEvent data ce) reads buffer w (set_turn t w)) as H.
  destruct (App.read_loop _ _ reads buffer w),
           (App.read_loop _ _ reads buffer (set_turn t w)); simpl in *;
    try (exfalso; apply H; [|done]); try (f_equal; apply H; [|done]).
  all: intros data a b ->; apply handleStreamEvent_set_turn.
Qed.

Lemma run_reads_closed reads (w : World) : turn w = None -> run (reads_of reads) w = w.
Proof.
  intros Ht. induction reads as [|value reads IH]; [done|].
  unfold App.run. simpl. rewrite Ht. apply IH.
Qed.

(** The tasks that deliver the chunks of one response run the reading
    loop of the turn that waits for them. *)
Lemma run_reads reads (w : World) (ce : nat) buffer :
  turn w = Some (AwaitRead ce buffer) ->
  10 ∉ buffer ->
  run (reads_of reads) w =
  match App.read_loop JSON_parse (fun data => handleStreamEvent data ce) reads buffer w with
  | Normal w' => set_turn (Some (AwaitRead ce (pending (buffer ++ concat reads)))) w'
  | Throw w' => sendMessage_finally (sendMessage_catch w')
  end.
Proof.
  revert w buffer. induction reads as [|value reads IH]; intros w buffer Ht Hb.
  - simpl. rewrite app_nil_r, pending_id by done. symmetry. by apply set_turn_id.
  - change (run (reads_of (value :: reads)) w)
      with (run (reads_of reads) (step (ReadResolved (Some value)) w)).
    unfold App.step. rewrite Ht. cbn [App.read_loop]. rewrite !loop_body_eq.
    destruct (App.for_lines _ _ _ w) as [w1|w1].
    + rewrite (IH _ (pending (buffer ++ value))); [|done|apply pending_no_newline].
      rewrite read_loop_set_turn.
      destruct (App.read_loop _ _ reads _ w1) as [w2|w2]; simpl; [|done].
      by rewrite app_assoc, (pending_app (buffer ++ value)).
    + by apply run_reads_closed.
Qed.

(** The start of a turn, up to the arrival of the response. *)
Lemma open_turn (w : World) (value : jsstring) :
  isStreaming w = false ->
  truthy (trim value) = true ->
  run [TypeText value; ClickSend; FetchResolved true] w =
  set_turn (Some (AwaitRead (S (length (messages w))) []))
    (push_call (Fetch (trim value) (sessionId w))
       (set_messages (messages w ++ [(user, trim value); (assistant, [])])
          (setAvatarState thinking
             (set_currentMessage []
                (set_isStreaming true (set_messageInput [] w)))))).
Proof.
  intros Hs Hv. destruct w as [sid cm st vc mi ms av stx tr it cl].
  simpl in Hs. subst st. unfold App.run. simpl. unfold sendMessage. simpl.
  rewrite Hv. simpl. unfold push_call, setAvatarState, set_turn; simpl.
  rewrite length_app, <- app_assoc. simpl. by rewrite Nat.add_1_r.
Qed.

Lemma alter_second_last {A} (f : A -> A) (l : list A) (a b : A) :
  alter f (S (length l)) (l ++ [a; b]) = l ++ [a; f b].
Proof. induction l as [|x l IH]; [done|]. simpl. by rewrite <- IH. Qed.

Lemma run_app (es1 es2 : list Event) (w : World) :
  run (es1 ++ es2) w = run es2 (run es1 w).
Proof. unfold App.run. apply foldl_app. Qed.

Lemma voiceChat_speak_spec (vc : Voice.VoiceChat) (text language : jsstring) (w : World) :
  voiceChat_speak vc text language w =
  set_messageInput
    (input_after (snd (Voice.speak text (Some language) vc)) (messageInput w))
    (set_calls (calls w ++ Speak text language
                  :: map VoiceAction (snd (Voice.speak text (Some language) vc)))
       (set_voiceChat (Some (fst (Voice.speak text (Some language) vc))) w)).
Proof.
  unfold voiceChat_speak. destruct (Voice.speak text (Some language) vc) as [vc' acts].
  rewrite perform_all_spec. destruct w. unfold set_messageInput, set_calls. simpl.
  by rewrite <- app_assoc.
Qed.

Lemma updateStatus_eq (elementId : string) (value : jsstring) (w : World) :
  updateStatus elementId value w =
  set_statusText
    (match statusText w !! elementId with
     | Some _ => <[elementId := value]> (statusText w)
     | None => statusText w
     end) w.
Proof. unfold updateStatus. case_match; [done|]. by destruct w. Qed.

Lemma speak_calls_Fetch message session_id (cs : list Call) :
  speak_calls (Fetch message session_id :: cs) = speak_calls cs.
Proof. reflexivity. Qed.

Lemma speak_calls_Speak text language (cs : list Call) :
  speak_calls (Speak text language :: cs) = (text, language) :: speak_calls cs.
Proof. reflexivity. Qed.

Lemma speak_calls_voice (acts : list Voice.Action) (cs : list Call) :
  speak_calls (map VoiceAction acts ++ cs) = speak_calls cs.
Proof. induction acts; [done|by simpl]. Qed.

(** The branch of a complete status that speaks. *)
Lemma handleStreamEvent_complete_speaks (w : World) (ce : nat)
  (metrics : option number) (message : option jsstring) (vc : Voice.VoiceChat) :
  voiceChat w = Some vc ->
  truthy (currentMessage w) = true ->
  handleStreamEvent (status (lit "complete") metrics message) ce w =
  set_idleTimers (S (idleTimers w))
    (push_call SetTimeoutIdle
       (voiceChat_speak vc (currentMessage w) (detectLanguageFromText (currentMessage w))
          (match metrics with
           | Some latency =>
               updateStatus "latency" (toFixed latency 2 ++ lit "s")
                 (setAvatarState speaking w)
           | None => setAvatarState speaking w
           end))).
Proof.
  intros Hvc Hcm. unfold App.handleStreamEvent.
  change (strictEq (lit "complete") (lit "thinking")) with false.
  rewrite strictEq_refl. cbv zeta.
  assert (forall w', voiceChat w' = voiceChat w -> currentMessage w' = currentMessage w ->
            idleTimers w' = idleTimers w ->
            set_idleTimers
              (S (idleTimers
                    (match voiceChat w' with
                     | Some vc0 =>
                         if truthy (currentMessage w')
                         then voiceChat_speak vc0 (currentMessage w')
                                (detectLanguageFromText (currentMessage w')) w'
                         else w'
                     | None => w'
                     end)))
              (push_call SetTimeoutIdle
                 (match voiceChat w' with
                  | Some vc0 =>
                      if truthy (currentMessage w')
                      then voiceChat_speak vc0 (currentMessage w')
                             (detectLanguageFromText (currentMessage w')) w'
                      else w'
                  | None => w'
                  end))
            = set_idleTimers (S (idleTimers w))
                (push_call SetTimeoutIdle
                   (voiceChat_speak vc (currentMessage w)
                      (detectLanguageFromText (currentMessage w)) w'))) as Hgen.
  { intros w' -> -> <-. rewrite Hvc, Hcm. by rewrite voiceChat_speak_spec. }
  destruct metrics as [latency|]; apply Hgen; unfold updateStatus;
    try case_match; done.
Qed.

(** C4.  A turn opened from a fresh controller with the message "Hello",
    whose response is cut into chunks in any way and decodes to the
    frames token "Hi", token " there", status complete with latency 0.42,
    ends with the reply "Hi there" accumulated and shown in the
    assistant's element after the user's message.  [setAvatarState] has
    been called with thinking, streaming (once per token), speaking, and
    idle (at the end of the stream and again by the timer), so the avatar
    ends at Idle.  [voiceChat.speak] has been called exactly once, with
    "Hi there" and "en"; the other calls are the request, what [speak]
    asks of the platform, and the scheduling of the timer. *)
Theorem hello_turn (w0 : World) (vc : Voice.VoiceChat) (reads : list jsstring)
  (message : option jsstring) :
  initial w0 ->
  voiceChat w0 = Some vc ->
  frames JSON_parse reads
    = Normal [token (lit "Hi"); token (lit " there");
              status (lit "complete") (Some (42 # 100)) message] ->
  let w := run ([TypeText (lit "Hello"); ClickSend; FetchResolved true]
                  ++ reads_of reads ++ [ReadResolved None; IdleTimeout]) w0 in
  messages w = messages w0 ++ [(user, lit "Hello"); (assistant, lit "Hi there")]
  /\ currentMessage w = lit "Hi there"
  /\ avatarStates w = [thinking; streaming; streaming; speaking; idle; idle]
  /\ avatar w = Some idle
  /\ speak_calls (calls w) = [(lit "Hi there", lit "en")]
  /\ calls w = [Fetch (lit "Hello") (sessionId w0); Speak (lit "Hi there") (lit "en")]
               ++ map VoiceAction
                    (snd (Voice.speak (lit "Hi there") (Some (lit "en")) vc))
               ++ [SetTimeoutIdle]
  /\ isStreaming w = false
  /\ turn w = None.
Proof.
  intros (Hcm & Hs & Hav & Ht & Hit & Hcl) Hvc Hfr.
  rewrite !run_app, open_turn by done.
  erewrite run_reads; [|reflexivity|apply not_elem_of_nil].
  rewrite read_loop_frames, Hfr.
  unfold handle_all, App.run. cbn [completion_map foldl].
  rewrite (handleStreamEvent_complete_speaks _ _ _ _ vc); [|exact Hvc|reflexivity].
  rewrite voiceChat_speak_spec, updateStatus_eq.
  cbn [App.step App.handleStreamEvent]. world_simpl.
  rewrite ?Hcm, ?Hav, ?Hcl, ?Hit. world_simpl.
  change (trim (lit "Hello")) with (lit "Hello").
  change ((([] ++ lit "Hi") ++ lit " there")) with (lit "Hi there").
  change (detectLanguageFromText (lit "Hi there")) with (lit "en").
  rewrite !alter_second_last.
  unfold avatar. world_simpl. rewrite ?Hav. cbn [app last].
  by rewrite speak_calls_Fetch, speak_calls_Speak, speak_calls_voice.
Qed.

Lemma token_text_app (fs1 fs2 : list StreamEvent) :
  token_text (fs1 ++ fs2) = token_text fs1 ++ token_text fs2.
Proof. unfold token_text. by rewrite omap_app, concat_app. Qed.

(** The accumulated reply grows by the contents of the token frames
    handled, and by nothing else. *)
Lemma handleStreamEvent_currentMessage (data : StreamEvent) (ce : nat) (w : World) :
  currentMessage (handleStreamEvent data ce w) = currentMessage w ++ token_text [data].
Proof.
  unfold App.handleStreamEvent, updateStatus, voiceChat_speak, token_text.
  repeat (case_match; simpl in *; simplify_eq); rewrite ?perform_all_spec; simpl;
    by rewrite ?app_nil_r.
Qed.

Lemma handle_all_currentMessage (fs : list StreamEvent) (ce : nat) (w : World) :
  currentMessage (handle_all (fun data => handleStreamEvent data ce) fs w)
  = currentMessage w ++ token_text fs.
Proof.
  revert w. induction fs as [|data fs IH]; intros w.
  - simpl. by rewrite app_nil_r.
  - change (handle_all (fun data => handleStreamEvent data ce) (data :: fs) w)
      with (handle_all (fun data => handleStreamEvent data ce) fs (handleStreamEvent data ce w)).
    rewrite IH, handleStreamEvent_currentMessage, <- app_assoc.
    by rewrite <- token_text_app.
Qed.

(** The handler adds no message and removes none. *)
Lemma handleStreamEvent_length (data : StreamEvent) (ce : nat) (w : World) :
  length (messages (handleStreamEvent data ce w)) = length (messages w).
Proof.
  unfold App.handleStreamEvent, updateStatus, voiceChat_speak.
  repeat (case_match; simpl in *; simplify_eq); rewrite ?perform_all_spec; simpl;
    by rewrite ?length_alter.
Qed.

Lemma for_lines_throws {S} (h : StreamEvent -> S -> S) lines line (s : S) :
  line ∈ lines ->
  startsWith (lit "data: ") line = true ->
  JSON_parse (slice 6 line) = None ->
  exists s', App.for_lines JSON_parse h lines s = Throw s'.
Proof.
  intros Hin Hm Hp. revert s.
  induction lines as [|l lines IH]; intros s; [by apply elem_of_nil in Hin|].
  rewrite for_lines_cons.
  apply elem_of_cons in Hin as [<-|Hin].
  - rewrite Hm, Hp. by eexists.
  - destruct (startsWith (lit "data: ") l); [|by apply IH].
    destruct (JSON_parse (slice 6 l)) as [data|]; [|by eexists].
    destruct (throws data); [by eexists|by apply IH].
Qed.

(** C5.  When a complete line of a chunk carries the marker and a
    record that [JSON.parse] rejects, the task that handles the chunk
    ends the turn in the state the handler had reached, and rolls
    nothing back.  With [fs] the records handed to the handler before
    the loop was left, which are those of the lines before the malformed
    one whenever all of these were handled, the state after the task is
    that of the [catch] and [finally] blocks run on the state in which
    [fs] have been handled: the accumulated reply is the one before the
    chunk followed by the contents of the token frames of [fs], those of
    this chunk included.  The element of the turn, which shows the reply
    in every state the controller can reach, still shows all of it, and
    the failure message is added after the messages shown.
    [setAvatarState] is called with error and then with idle, after the
    states of the frames handled before, so the avatar shows Idle; the
    streaming flag is cleared and no activation of [sendMessage] is left
    waiting.  The next turn starts reading with an empty buffer. *)
Theorem malformed_frame_aborts_turn (w : World) (ce : nat)
  (buffer value line next : jsstring) :
  turn w = Some (AwaitRead ce buffer) ->
  line ∈ complete_lines (buffer ++ value) ->
  startsWith (lit "data: ") line = true ->
  JSON_parse (slice 6 line) = None ->
  truthy (trim next) = true ->
  let lines := complete_lines (buffer ++ value) in
  let fs := outcome (for_lines JSON_parse collect lines []) in
  let w' := step (ReadResolved (Some value)) w in
  (for_lines JSON_parse collect lines [] = Throw fs)
  /\ (forall before after handled,
        lines = before ++ line :: after ->
        for_lines JSON_parse collect before [] = Normal handled ->
        fs = handled)
  /\ (w' = sendMessage_finally
             (sendMessage_catch
                (handle_all (fun data => handleStreamEvent data ce) fs w)))
  /\ (currentMessage w' = currentMessage w ++ token_text fs)
  /\ (reachable w \/ shown ce w ->
      shown ce w'
      /\ exists rest,
           messages w' !! ce
           = Some (assistant, (currentMessage w ++ token_text fs) ++ rest))
  /\ (messages w' !! length (messages w)
      = Some (assistant, lit "Error: Failed to send message. Please try again."))
  /\ (exists handled, avatarStates w' = avatarStates w ++ handled ++ [error; idle])
  /\ avatar w' = Some idle
  /\ isStreaming w' = false
  /\ turn w' = None
  /\ currentMessage w `prefix_of` currentMessage w'
  /\ (exists ce',
        turn (run [TypeText next; ClickSend; FetchResolved true] w')
        = Some (AwaitRead ce' [])).
Proof.
  intros Hturn Hin Hmark Hparse Hnext. cbv zeta.
  assert (reachable w \/ shown ce w -> shown ce w) as Hreach.
  { intros [Hr|Hs]; [|done].
    destruct (reachable_consistent w Hr) as (_ & _ & Hshown).
    apply Hshown. by rewrite Hturn. }
  unfold App.step. rewrite Hturn, loop_body_eq.
  generalize dependent (complete_lines (buffer ++ value)). intros lines Hin.
  destruct (for_lines_throws (fun data => handleStreamEvent data ce)
              lines line w Hin Hmark Hparse) as [wt Hthrow].
  pose proof (for_lines_frames JSON_parse (fun data => handleStreamEvent data ce)
                lines w) as Hfr.
  rewrite Hthrow in Hfr.
  destruct (for_lines JSON_parse collect lines []) as [fs|fs] eqn:Hfs; [done|].
  simpl in Hfr. injection Hfr as Hwt.
  assert (length (messages wt) = length (messages w)) as Hlen.
  { rewrite Hwt. clear. revert w. induction fs as [|data fs IH]; intros w; [done|].
    change (handle_all (fun data => handleStreamEvent data ce) (data :: fs) w)
      with (handle_all (fun data => handleStreamEvent data ce) fs
              (handleStreamEvent data ce w)).
    by rewrite IH, handleStreamEvent_length. }
  assert (avatarStates w `prefix_of` avatarStates wt) as [handled Hav].
  { rewrite Hwt. clear. revert w. induction fs as [|data fs IH]; intros w; [done|].
    change (handle_all (fun data => handleStreamEvent data ce) (data :: fs) w)
      with (handle_all (fun data => handleStreamEvent data ce) fs
              (handleStreamEvent data ce w)).
    etrans; [apply handleStreamEvent_avatar|apply IH]. }
  assert (currentMessage wt = currentMessage w ++ token_text fs) as Hcm.
  { rewrite Hwt. apply handle_all_currentMessage. }
  rewrite Hthrow. cbn [outcome]. split_and!.
  - done.
  - intros before after handled' Hsplit Hbefore.
    rewrite Hsplit, for_lines_app, Hbefore in Hfs. cbn [and_then] in Hfs.
    rewrite for_lines_cons, Hmark, Hparse in Hfs. by injection Hfs.
  - by rewrite Hwt.
  - done.
  - intros Hs%Hreach.
    pose proof (for_lines_keeps ce lines w Hs) as Hk.
    rewrite Hthrow in Hk. simpl in Hk. destruct Hk as (_ & _ & [rest Hrest] & _).
    split; exists rest; world_simpl; [|rewrite <- Hcm]; by apply lookup_app_l_Some.
  - world_simpl. rewrite <- Hlen. by rewrite lookup_app_r, Nat.sub_diag.
  - exists handled. world_simpl. rewrite Hav. by rewrite <- !app_assoc.
  - unfold avatar. world_simpl. apply last_snoc.
  - done.
  - done.
  - world_simpl. rewrite Hcm. by apply prefix_app_r.
  - rewrite open_turn by done. by eexists.
Qed.

(** C3.  In every state the controller can reach in which the avatar
    shows Thinking, StreamingText or Speaking, [sendMessage] returns at
    its guard whatever the message box holds: the state is left exactly
    as it is, so no turn is opened, no request is issued, and the
    accumulated reply is unchanged. *)
Theorem sendMessage_rejected_while_active (w : World) (value : jsstring) :
  reachable w ->
  avatar w = Some thinking \/ avatar w = Some streaming \/ avatar w = Some speaking ->
  sendMessage (set_messageInput value w) = set_messageInput value w
  /\ step ClickSend w = w
  /\ turn (sendMessage (set_messageInput value w)) = turn w
  /\ calls (sendMessage (set_messageInput value w)) = calls w
  /\ currentMessage (sendMessage (set_messageInput value w)) = currentMessage w.
Proof.
  intros Hr Ha. destruct (reachable_consistent w Hr) as (_ & Hidle & _).
  assert (isStreaming w = true) as Hs.
  { destruct (isStreaming w); [done|].
    destruct (Hidle eq_refl) as [Hn|Hn]; rewrite Hn in Ha;
      by destruct Ha as [?|[?|?]]. }
  assert (forall w', isStreaming w' = true -> sendMessage w' = w') as Hguard.
  { intros w' Hw'. unfold sendMessage. rewrite Hw'. by rewrite orb_true_r. }
  rewrite (Hguard (set_messageInput value w)) by done.
  simpl. by rewrite (Hguard w).
Qed.

(** C9.  When the message box is empty or holds white space only,
    [sendMessage] returns at its guard and leaves the state exactly as it
    is: no message is rendered, no turn is opened, no request is issued,
    and the streaming flag keeps its value, false when it was false. *)
Theorem sendMessage_blank_input (w : World) :
  forallb isWhiteSpace (messageInput w) = true ->
  sendMessage w = w
  /\ messages (sendMessage w) = messages w
  /\ turn (sendMessage w) = turn w
  /\ calls (sendMessage w) = calls w
  /\ (isStreaming w = false -> isStreaming (sendMessage w) = false).
Proof.
  intros Hblank.
  assert (sendMessage w = w) as ->; [|done].
  unfold sendMessage. by rewrite (trim_blank _ Hblank).
Qed.

(** C10.  On a status frame with state ['complete'] that arrives while
    the accumulated reply is empty, [speak] is not called and nothing is
    asked of the speech platform: the only call made is the scheduling of
    the idle timer.  The avatar is set to Speaking, and the latency, when
    the frame carries one, is written to the latency element. *)
Theorem complete_without_reply (w : World) (ce : nat)
  (metrics : option number) (message : option jsstring) :
  currentMessage w = [] ->
  let w' := handleStreamEvent (status (lit "complete") metrics message) ce w in
  speak_calls (calls w') = speak_calls (calls w)
  /\ calls w' = calls w ++ [SetTimeoutIdle]
  /\ voiceChat w' = voiceChat w
  /\ avatarStates w' = avatarStates w ++ [speaking]
  /\ (forall latency,
        metrics = Some latency ->
        is_Some (statusText w !! "latency") ->
        statusText w' !! "latency" = Some (toFixed latency 2 ++ lit "s")).
Proof.
  intros Hcm. destruct w as [sid cm st vc mi ms av stx tr it cl].
  simpl in Hcm. subst cm. unfold App.handleStreamEvent, updateStatus.
  change (strictEq (lit "complete") (lit "thinking")) with false.
  rewrite strictEq_refl.
  destruct metrics as [latency|]; simpl;
    [destruct (stx !! "latency") as [old|] eqn:E|]; simpl;
    destruct vc; simpl; unfold speak_calls; rewrite omap_app; simpl;
    rewrite app_nil_r; (split; [done|]); (split; [done|]); (split; [done|]);
    (split; [done|]); intros l Hl Hsome; simplify_eq;
    rewrite ?lookup_insert_eq; try done; by destruct Hsome.
Qed.

End ChatAppFacts.

(** ** The theorems at the sample page and response *)

Section Samples.

Import Voice App.

Lemma fresh_page_initial : initial fresh_page.
Proof. repeat split; reflexivity. Qed.

Lemma streaming_page_reachable : reachable sample_toFixed sample_parse streaming_page.
Proof. apply reachable_run, reachable_initial, fresh_page_initial. Qed.

(** C8, as stated, fails: a [VoiceChat] that started an utterance and
    was then told by the platform that no voice is left can be reached,
    [getVoiceForLanguage] returns null for it, and [speak] calls
    [synthesis.cancel()] on it, which stops the speech in progress. *)
Lemma speak_without_voices_cancels :
  Voice.reachable voiceless_VoiceChat
  /\ voices voiceless_VoiceChat = Some []
  /\ getVoiceForLanguage (lit "en") voiceless_VoiceChat = None
  /\ speak (lit "Hello") (Some (lit "en")) voiceless_VoiceChat
     = (voiceless_VoiceChat, [SynthesisCancel])
  /\ speak (lit "Hello") (Some (lit "en")) voiceless_VoiceChat
     <> (voiceless_VoiceChat, []).
Proof.
  split_and!; try reflexivity.
  - unfold voiceless_VoiceChat.
    apply Voice.reachable_step, Voice.reachable_step, (Voice.reachable_new sample_window).
    reflexivity.
  - vm_compute. discriminate.
Qed.

Lemma startRecording_while_recording_witness :
  startRecording false listening_VoiceChat = (listening_VoiceChat, [RecognitionStop]).
Proof.
  refine (startRecording_while_recording listening_VoiceChat false _ _).
  - unfold listening_VoiceChat.
    apply Voice.reachable_step, (Voice.reachable_new sample_window). reflexivity.
  - reflexivity.
Defined.

Lemma speak_disabled_or_voiceless_witness :
  fst (speak (lit "Hello") None voiceless_VoiceChat) = voiceless_VoiceChat.
Proof.
  refine (proj1 (speak_disabled_or_voiceless voiceless_VoiceChat (lit "Hello") None _)).
  right. right. reflexivity.
Defined.

Lemma trailing_line_is_retained_witness :
  loop_body sample_parse collect (lit "da")
    ((lit "ta: " ++ wire "{'type':'token','content':'Hi'}") ++ [10] ++ lit "data: {") []
  = (lit "data: {",
     for_lines sample_parse collect
       (split_nl (lit "da" ++ lit "ta: " ++ wire "{'type':'token','content':'Hi'}")) []).
Proof.
  refine (proj1 (trailing_line_is_retained sample_parse collect
                   (lit "da") (lit "ta: " ++ wire "{'type':'token','content':'Hi'}")
                   (lit "data: {") [] _)).
  apply (bool_decide_unpack (10 ∉ lit "data: {")). vm_compute. exact I.
Defined.

Lemma sendMessage_rejected_while_active_witness :
  sendMessage (set_messageInput (lit "Again") streaming_page)
  = set_messageInput (lit "Again") streaming_page.
Proof.
  refine (proj1 (sendMessage_rejected_while_active sample_toFixed sample_parse
                   streaming_page (lit "Again") _ _)).
  - apply streaming_page_reachable.
  - right. left. vm_compute. reflexivity.
Defined.

Lemma hello_turn_witness :
  speak_calls
    (calls (run sample_toFixed sample_parse
              ([TypeText (lit "Hello"); ClickSend; FetchResolved true]
                 ++ reads_of sample_reads ++ [ReadResolved None; IdleTimeout])
              fresh_page))
  = [(lit "Hi there", lit "en")].
Proof.
  refine (proj1 (proj2 (proj2 (proj2 (proj2
            (hello_turn sample_toFixed sample_parse fresh_page sample_VoiceChat
               sample_reads None _ _ _)))))).
  - apply fresh_page_initial.
  - reflexivity.
  - vm_compute. reflexivity.
Defined.

Lemma malformed_frame_aborts_turn_witness :
  currentMessage (step sample_toFixed sample_parse
                    (ReadResolved (Some broken_chunk)) streaming_page)
  = lit "Hi there".
Proof.
  etrans.
  - refine (proj1 (proj2 (proj2 (proj2
              (malformed_frame_aborts_turn sample_toFixed sample_parse streaming_page 1 []
                 broken_chunk malformed_line (lit "Again") _ _ _ _ _))))).
    + vm_compute. reflexivity.
    + apply (bool_decide_unpack (malformed_line ∈ complete_lines ([] ++ broken_chunk))).
      vm_compute. exact I.
    + vm_compute. reflexivity.
    + vm_compute. reflexivity.
    + vm_compute. reflexivity.
  - vm_compute. reflexivity.
Defined.

Lemma sendMessage_blank_input_witness :
  sendMessage (set_messageInput (lit "   ") fresh_page)
  = set_messageInput (lit "   ") fresh_page.
Proof.
  refine (proj1 (sendMessage_blank_input (set_messageInput (lit "   ") fresh_page) _)).
  vm_compute. reflexivity.
Defined.

Lemma complete_without_reply_witness :
  calls (handleStreamEvent sample_toFixed
           (status (lit "complete") (Some (42 # 100)) None) 0 fresh_page)
  = calls fresh_page ++ [SetTimeoutIdle].
Proof.
  refine (proj1 (proj2
            (complete_without_reply sample_toFixed fresh_page 0 (Some (42 # 100)) None _))).
  reflexivity.
Defined.

End Samples.

(** * Further properties of the code *)

(** ** VoiceChat: voices, utterances and languages *)

Section VoiceChatMore.

Import Voice.

Lemma startsWith_app (p q s : jsstring) :
  startsWith (p ++ q) s = true -> startsWith p s = true.
Proof.
  revert s. induction p as [|a p IH]; intros s; [done|].
  destruct s as [|b s]; simpl; [done|].
  intros [Hab Hps]%andb_prop. rewrite Hab. simpl. by apply IH.
Qed.

Lemma startsWith_includes (p s : jsstring) :
  startsWith p s = true -> includes p s = true.
Proof. intros H. destruct s; simpl; by rewrite H. Qed.

Lemma langCode_langPrefix (language : jsstring) :
  exists region, langCode language = langPrefix language ++ region.
Proof.
  unfold langCode, langPrefix. destruct (strictEq language (lit "hi")).
  - by exists (lit "-IN").
  - by exists (lit "-US").
Qed.

Lemma find_ext_bool {A} (f g : A -> bool) (l : list A) :
  (forall a, f a = g a) -> find f l = find g l.
Proof. intros H. induction l as [|a l IH]; simpl; [done|]. by rewrite H, IH. Qed.

Lemma find_elem_of {A} (f : A -> bool) (l : list A) (a : A) :
  find f l = Some a -> a ∈ l.
Proof.
  induction l as [|b l IH]; simpl; [done|].
  destruct (f b); [intros [= ->]; apply list_elem_of_here|].
  intros H. apply list_elem_of_further. by apply IH.
Qed.

(** What [getVoiceForLanguage] answers on a list that is not empty. *)
Lemma getVoiceForLanguage_eq (this : VoiceChat) (language : jsstring) v0 vs :
  voices this = Some (v0 :: vs) ->
  getVoiceForLanguage language this =
  Some (default
          (default v0 (find (fun v => includes (langPrefix language) (voice_lang v))
                         (v0 :: vs)))
          (find (fun v => startsWith (langPrefix language) (voice_lang v)) (v0 :: vs))).
Proof.
  intros Hv. unfold getVoiceForLanguage. rewrite Hv.
  rewrite (find_ext_bool _ (fun v => startsWith (langPrefix language) (voice_lang v))).
  - destruct (find _ (v0 :: vs)); [done|].
    by destruct (find (fun v => includes (langPrefix language) (voice_lang v)) (v0 :: vs)).
  - intros v. destruct (langCode_langPrefix language) as [region ->].
    destruct (startsWith (langPrefix language ++ region) (voice_lang v)) eqn:E; [|done].
    by rewrite (startsWith_app _ _ _ E).
Qed.

Lemma getVoiceForLanguage_some (this : VoiceChat) (language : jsstring) v0 vs :
  voices this = Some (v0 :: vs) ->
  exists voice, getVoiceForLanguage language this = Some voice /\ voice ∈ v0 :: vs.
Proof.
  intros Hv. eexists. split; [by apply getVoiceForLanguage_eq|].
  destruct (find (fun v => startsWith (langPrefix language) (voice_lang v)) (v0 :: vs))
    eqn:E1; cbn [default from_option].
  { by apply find_elem_of in E1. }
  destruct (find (fun v => includes (langPrefix language) (voice_lang v)) (v0 :: vs))
    eqn:E2; cbn [default from_option].
  { by apply find_elem_of in E2. }
  apply list_elem_of_here.
Qed.

(** X1.  On a voice list that is not empty [getVoiceForLanguage] always
    answers with a voice of the list: the first one whose language tag
    starts with the prefix of the language (['hi'] or ['en']), wherever a
    voice with the full regional tag stands in the list; failing that,
    the first one whose tag contains the prefix; failing that, the first
    voice. *)
Theorem getVoiceForLanguage_selection (this : VoiceChat) (language : jsstring)
  (v0 : SpeechSynthesisVoice) (vs : list SpeechSynthesisVoice) :
  voices this = Some (v0 :: vs) ->
  exists voice,
    getVoiceForLanguage language this = Some voice
    /\ voice ∈ v0 :: vs
    /\ voice =
       default
         (default v0 (find (fun v => includes (langPrefix language) (voice_lang v))
                        (v0 :: vs)))
         (find (fun v => startsWith (langPrefix language) (voice_lang v)) (v0 :: vs)).
Proof.
  intros Hv. destruct (getVoiceForLanguage_some this language v0 vs Hv) as (voice & Hg & Hin).
  exists voice. split; [done|]. split; [done|].
  rewrite (getVoiceForLanguage_eq this language v0 vs Hv) in Hg. by injection Hg as <-.
Qed.

(** [speak] when it can speak. *)
Lemma speak_available (this : VoiceChat) (text : jsstring) (language : option jsstring)
  v0 vs :
  voiceOutputEnabled this = true ->
  synthesis this = true ->
  voices this = Some (v0 :: vs) ->
  exists voice,
    voice ∈ v0 :: vs
    /\ speak text language this =
       let utterance :=
         {| utterance_text := text; utterance_voice := voice;
            utterance_lang := langCode (spoken_language language this);
            utterance_rate := 1; utterance_pitch := 1; utterance_volume := 1 |} in
       (set_currentUtterance (Some utterance) this,
        match currentUtterance this with
        | Some _ => [SynthesisCancel]
        | None => []
        end ++ [SynthesisSpeak utterance]).
Proof.
  intros He Hs Hv.
  destruct (getVoiceForLanguage_some this (spoken_language language this) v0 vs Hv)
    as (voice & Hvoice & Hin).
  exists voice. split; [done|]. unfold speak. rewrite He, Hs. simpl.
  fold (spoken_language language this). by rewrite Hvoice.
Qed.

(** X2.  With output enabled and a voice at hand, two calls of [speak] in
    a row leave exactly the second utterance current: the first call
    makes its utterance current, and the second cancels the speech in
    progress before it speaks its own, which carries the second text
    and a voice of the list. *)
Theorem speak_twice (this : VoiceChat) (t1 t2 : jsstring) (l1 l2 : option jsstring)
  (v0 : SpeechSynthesisVoice) (vs : list SpeechSynthesisVoice) :
  voiceOutputEnabled this = true ->
  synthesis this = true ->
  voices this = Some (v0 :: vs) ->
  exists u1 u2,
    currentUtterance (fst (speak t1 l1 this)) = Some u1
    /\ utterance_text u1 = t1
    /\ last (snd (speak t1 l1 this)) = Some (SynthesisSpeak u1)
    /\ snd (speak t2 l2 (fst (speak t1 l1 this))) = [SynthesisCancel; SynthesisSpeak u2]
    /\ currentUtterance (fst (speak t2 l2 (fst (speak t1 l1 this)))) = Some u2
    /\ utterance_text u2 = t2
    /\ utterance_voice u2 ∈ v0 :: vs.
Proof.
  intros He Hs Hv.
  destruct (speak_available this t1 l1 v0 vs He Hs Hv) as (voice1 & _ & ->).
  cbv zeta. cbn [fst snd].
  destruct (speak_available (set_currentUtterance
              (Some {| utterance_text := t1; utterance_voice := voice1;
                       utterance_lang := langCode (spoken_language l1 this);
                       utterance_rate := 1; utterance_pitch := 1;
                       utterance_volume := 1 |}) this) t2 l2 v0 vs He Hs Hv)
    as (voice2 & Hin2 & ->).
  cbv zeta. cbn [fst snd]. do 2 eexists.
  split_and!; [done|done|apply last_snoc|done|done|done|done].
Qed.

(** X3.  Switching voice output off stops the speech in progress and
    empties the current-utterance slot (when the page has speech
    synthesis), and from then on every [speak] is without effect;
    switching it on calls nothing.  [stopSpeaking] twice leaves the
    object as [stopSpeaking] once does. *)
Theorem output_switched_off (this : VoiceChat) (text : jsstring)
  (language : option jsstring) :
  voiceOutputEnabled (fst (setVoiceOutputEnabled false this)) = false
  /\ currentUtterance (fst (setVoiceOutputEnabled false this))
     = (if synthesis this then None else currentUtterance this)
  /\ snd (setVoiceOutputEnabled false this)
     = (if synthesis this then [SynthesisCancel] else [])
  /\ speak text language (fst (setVoiceOutputEnabled false this))
     = (fst (setVoiceOutputEnabled false this), [])
  /\ snd (setVoiceOutputEnabled true this) = []
  /\ fst (stopSpeaking (fst (stopSpeaking this))) = fst (stopSpeaking this).
Proof.
  unfold setVoiceOutputEnabled, stopSpeaking, speak. simpl.
  destruct (synthesis this) eqn:E; simpl; rewrite ?E; done.
Qed.

(** X4.  After [setLanguage], dictation and speech use the same regional
    tag: the recognition object, when there is one, listens in
    ['hi-IN'] for ['hi'] and in ['en-US'] for every other language, and
    an utterance spoken without an explicit language carries that tag. *)
Theorem setLanguage_speak_agree (this : VoiceChat) (language text : jsstring)
  (v0 : SpeechSynthesisVoice) (vs : list SpeechSynthesisVoice) :
  voiceOutputEnabled this = true ->
  synthesis this = true ->
  voices this = Some (v0 :: vs) ->
  (langCode language = lit "hi-IN" \/ langCode language = lit "en-US")
  /\ (langCode language = lit "hi-IN" <-> language = lit "hi")
  /\ (recognition_lang <$> recognition (setLanguage language this)
      = (fun _ => Some (langCode language)) <$> recognition this)
  /\ exists utterance,
       currentUtterance (fst (speak text None (setLanguage language this)))
       = Some utterance
       /\ utterance_lang utterance = langCode language.
Proof.
  intros He Hs Hv. split_and!.
  - unfold langCode. destruct (strictEq language (lit "hi")); auto.
  - unfold langCode, strictEq. case_bool_decide; [tauto|].
    split; [intros Habs; vm_compute in Habs; discriminate|done].
  - unfold setLanguage. cbn. destruct (recognition this) eqn:E; cbn; rewrite ?E; done.
  - assert (voiceOutputEnabled (setLanguage language this) = true
            /\ synthesis (setLanguage language this) = true
            /\ voices (setLanguage language this) = Some (v0 :: vs)
            /\ voiceLanguage (setLanguage language this) = language)
      as (He' & Hs' & Hv' & Hl').
    { unfold setLanguage. simpl. by destruct (recognition this). }
    destruct (speak_available _ text None v0 vs He' Hs' Hv') as (voice & _ & ->).
    cbv zeta. cbn [fst]. eexists. split; [done|]. simpl. by rewrite Hl'.
Qed.

Lemma step_keeps_recognition (e : Event) (this : VoiceChat) :
  is_Some (recognition this) -> is_Some (recognition (fst (step e this))).
Proof.
  intros [r Hr].
  destruct e; simpl;
    unfold setVoiceOutputEnabled, startRecording, stopRecording, setLanguage, speak,
      stopSpeaking;
    simpl; rewrite ?Hr; simpl;
    repeat (case_match; simpl in *; simplify_eq); rewrite ?Hr; by eexists.
Qed.

Lemma step_unsupported (e : Event) (this : VoiceChat) :
  recognition this = None -> voices this = None -> currentUtterance this = None ->
  recognition (fst (step e this)) = None
  /\ voices (fst (step e this)) = None
  /\ currentUtterance (fst (step e this)) = None.
Proof.
  intros Hr Hv Hu.
  destruct e; simpl;
    unfold setVoiceOutputEnabled, startRecording, stopRecording, setLanguage, speak,
      getVoiceForLanguage, stopSpeaking;
    simpl; rewrite ?Hr, ?Hv, ?Hu; simpl;
    repeat (case_match; simpl in *; simplify_eq); rewrite ?Hr, ?Hv, ?Hu; done.
Qed.

(** Without speech recognition the voices are never loaded and no
    utterance is ever current. *)
Lemma unsupported_never_loads (this : VoiceChat) :
  reachable this ->
  recognition this = None ->
  voices this = None /\ currentUtterance this = None.
Proof.
  induction 1 as [window this Hnew|e this Hr IH].
  - unfold new_VoiceChat in Hnew.
    destruct (hasSpeechRecognition window); simpl in Hnew.
    + destruct (speechSynthesis window); [|done]. by injection Hnew as <-.
    + by injection Hnew as <-.
  - intros Hrec. destruct (recognition this) as [r|] eqn:E.
    + destruct (step_keeps_recognition e this) as [r' Hr']; [by rewrite E|].
      by rewrite Hr' in Hrec.
    + destruct (IH eq_refl) as [Hv Hu].
      by destruct (step_unsupported e this E Hv Hu) as (_ & ? & ?).
Qed.

(** X5.  On a page without speech recognition the object never speaks:
    [init] returns before it loads the voices, so in every state such
    an object can reach, [speak] does nothing, whatever the text, the
    language and the voice-output switch. *)
Theorem speak_needs_recognition (this : VoiceChat) (text : jsstring)
  (language : option jsstring) :
  reachable this ->
  recognition this = None ->
  speak text language this = (this, []).
Proof.
  intros Hr Hrec. destruct (unsupported_never_loads this Hr Hrec) as [Hv Hu].
  unfold speak. destruct (_ || _); [done|].
  unfold getVoiceForLanguage. by rewrite Hu, Hv.
Qed.

End VoiceChatMore.

(** ** The language classifier, as it behaves *)

Section ClassifierMore.

Lemma match_class_count (cls : N -> bool) (text : jsstring) :
  length (default [] (match_class cls text)) = if existsb cls text then 1%nat else 0%nat.
Proof.
  induction text as [|c text IH]; simpl; [done|]. by destruct (cls c).
Qed.

Lemma devanagari_not_space (c : N) : devanagariRegex c = true -> isWhiteSpace c = false.
Proof.
  intros [H1 H2]%andb_prop. apply N.leb_le in H1, H2. unfold isWhiteSpace.
  repeat apply orb_false_intro;
    first [ apply N.eqb_neq; lia
          | apply andb_false_iff; left; apply N.leb_gt; lia
          | apply andb_false_iff; right; apply N.leb_gt; lia ].
Qed.

Lemma devanagari_counts (text : jsstring) :
  existsb devanagariRegex text = true ->
  (0 < length (remove_class isWhiteSpace text))%nat.
Proof.
  unfold remove_class. induction text as [|c text IH]; simpl; [done|].
  destruct (devanagariRegex c) eqn:E; simpl.
  - intros _. rewrite filter_cons_True by by apply devanagari_not_space. simpl. lia.
  - intros H. rewrite filter_cons. case_decide; simpl; [lia|by apply IH].
Qed.

(** X6.  [detectLanguageFromText] answers ['hi'] or ['en'] and nothing
    else, and it answers ['hi'] exactly for the texts that hold a code
    unit of the Devanagari block and at most three code units outside
    white space. *)
Theorem detectLanguageFromText_hi_iff (text : jsstring) :
  (detectLanguageFromText text = lit "hi" \/ detectLanguageFromText text = lit "en")
  /\ (detectLanguageFromText text = lit "hi"
      <-> (exists c, c ∈ text /\ devanagariRegex c = true)
          /\ (length (remove_class isWhiteSpace text) <= 3)%nat).
Proof.
  assert ((exists c, c ∈ text /\ devanagariRegex c = true)
          <-> existsb devanagariRegex text = true) as Hex.
  { rewrite existsb_exists. by setoid_rewrite list_elem_of_In. }
  rewrite Hex. clear Hex.
  pose proof (devanagari_counts text) as Hpos.
  pose proof (detectLanguageFromText_long text) as Hlong.
  unfold detectLanguageFromText in *. rewrite match_class_count in *.
  set (total := length (remove_class isWhiteSpace text)) in *.
  destruct (existsb devanagariRegex text).
  - specialize (Hpos eq_refl).
    destruct total as [|[|[|[|n]]]]; [lia| | | |].
    + split; [by left|]. split; [intros _; split; [done|lia]|done].
    + split; [by left|]. split; [intros _; split; [done|lia]|done].
    + split; [by left|]. split; [intros _; split; [done|lia]|done].
    + rewrite Hlong by lia. split; [by right|].
      split; [intros Habs; vm_compute in Habs; discriminate|intros [_ ?]; lia].
  - split; [right; by destruct (Nat.eqb total 0)|].
    split; [|by intros [? _]].
    intros Habs. destruct (Nat.eqb total 0); vm_compute in Habs; discriminate.
Qed.

End ClassifierMore.

(** ** ChatApp: frames, turns and the message list *)

Section ChatAppMore.

Import App.

Variable toFixed : number -> nat -> jsstring.
Variable JSON_parse : jsstring -> option StreamEvent.

Abbreviation handleStreamEvent := (handleStreamEvent toFixed).
Abbreviation step := (step toFixed JSON_parse).
Abbreviation run := (run toFixed JSON_parse).
Abbreviation reachable := (reachable toFixed JSON_parse).

(** X7.  The accumulated reply is the concatenation of the contents of
    the token frames handled, in order, after what was accumulated
    before: status frames and other records never change it.  At the
    end of the reading loop it is therefore determined by the frames of
    the text received, whether the loop ends normally or by a failure
    of [JSON.parse]. *)
Theorem reply_is_token_concatenation (fs : list StreamEvent) (reads : list jsstring)
  (ce : nat) (w : World) :
  currentMessage (handle_all (fun data => handleStreamEvent data ce) fs w) = currentMessage w ++ token_text fs
  /\ currentMessage (outcome (read_loop JSON_parse (fun data => handleStreamEvent data ce) reads [] w))
     = currentMessage w ++ token_text (outcome (frames JSON_parse reads)).
Proof.
  split; [apply handle_all_currentMessage|].
  rewrite read_loop_frames.
  destruct (frames JSON_parse reads); simpl; apply handle_all_currentMessage.
Qed.

(** The loop over the lines of a chunk ends normally when every marked
    line is handled: [JSON.parse] accepts its record and the handler
    does not throw on it. *)
Lemma for_lines_normal {S} (h : StreamEvent -> S -> S) lines (s : S) :
  (forall line, line ∈ lines -> startsWith (lit "data: ") line = true ->
                exists data, JSON_parse (slice 6 line) = Some data
                             /\ throws data = false) ->
  exists s', for_lines JSON_parse h lines s = Normal s'.
Proof.
  revert s. induction lines as [|line lines IH]; intros s Hall; [by eexists|].
  rewrite for_lines_cons.
  assert (forall l, l ∈ lines -> startsWith (lit "data: ") l = true ->
                    exists data, JSON_parse (slice 6 l) = Some data
                                 /\ throws data = false) as Hrest.
  { intros l Hl. apply Hall. by apply list_elem_of_further. }
  destruct (startsWith (lit "data: ") line) eqn:E; [|by apply IH].
  destruct (Hall line (list_elem_of_here _ _) E) as (data & -> & ->). by apply IH.
Qed.

(** X8.  No frame that is handled ends a turn.  When every marked line
    of a chunk holds a record that [JSON.parse] accepts and on which
    [handleStreamEvent] does not throw (it throws on [null] and on a
    complete status whose [metrics] hold no number under [latency]),
    then after the chunk is handled, complete and error status frames
    included, [sendMessage] still waits for the next chunk with the same
    message element and with the text after the last newline as its
    buffer, and the streaming flag is as before; the state is the one in
    which the records of the chunk have been handled in order. *)
Theorem chunk_keeps_turn_open (w : World) (ce : nat) (buffer value : jsstring) :
  turn w = Some (AwaitRead ce buffer) ->
  (forall line, line ∈ complete_lines (buffer ++ value) ->
                startsWith (lit "data: ") line = true ->
                exists data, JSON_parse (slice 6 line) = Some data
                             /\ throws data = false) ->
  turn (step (ReadResolved (Some value)) w)
  = Some (AwaitRead ce (pending (buffer ++ value)))
  /\ isStreaming (step (ReadResolved (Some value)) w) = isStreaming w
  /\ step (ReadResolved (Some value)) w
     = set_turn (Some (AwaitRead ce (pending (buffer ++ value))))
         (handle_all (fun data => handleStreamEvent data ce)
            (outcome (for_lines JSON_parse collect (complete_lines (buffer ++ value)) []))
            w).
Proof.
  intros Ht Hall. unfold App.step. rewrite Ht, loop_body_eq.
  destruct (for_lines_normal (fun data => handleStreamEvent data ce) _ w Hall) as [w' Hn].
  rewrite Hn.
  split; [done|]. split.
  - simpl.
    pose proof (for_lines_outcome JSON_parse (fun s => isStreaming s = isStreaming w)
                  (fun data => handleStreamEvent data ce)
                  (complete_lines (buffer ++ value)) w) as Hq.
    rewrite Hn in Hq. apply Hq; [|done].
    intros data s <-. by destruct (handleStreamEvent_frame toFixed data ce s) as (? & _).
  - pose proof (for_lines_frames JSON_parse (fun data => handleStreamEvent data ce)
                  (complete_lines (buffer ++ value)) w) as Hfr.
    rewrite Hn in Hfr.
    destruct (for_lines JSON_parse collect (complete_lines (buffer ++ value)) [])
      as [fs|fs]; [|done].
    simpl in Hfr. injection Hfr as ->. done.
Qed.

(** X22.  A record that [JSON.parse] accepts and on which
    [handleStreamEvent] throws ends the turn as a malformed one does.
    When the lines before it were handled, their records being [fs],
    the task ends in the state of the [catch] and [finally] blocks run
    after [fs] and the part of the handler before its exception: the
    failure message is added after the messages, the reply accumulated
    is kept, the flag is cleared and nothing waits.  For a complete
    status whose [metrics] hold no number under [latency] the avatar was
    set to speaking before, and neither is [speak] called for the reply
    nor the idle timer scheduled. *)
Theorem handler_exception_aborts_turn (w : World) (ce : nat)
  (buffer value line : jsstring) (before after : list jsstring)
  (fs : list StreamEvent) (data : StreamEvent) :
  turn w = Some (AwaitRead ce buffer) ->
  complete_lines (buffer ++ value) = before ++ line :: after ->
  for_lines JSON_parse collect before [] = Normal fs ->
  startsWith (lit "data: ") line = true ->
  JSON_parse (slice 6 line) = Some data ->
  data = null_record
  \/ (exists message, data = status_without_latency (lit "complete") message) ->
  let w1 := handle_all (fun data => handleStreamEvent data ce) fs w in
  let w' := step (ReadResolved (Some value)) w in
  (w' = sendMessage_finally (sendMessage_catch (handleStreamEvent data ce w1)))
  /\ (messages w'
      = messages w1
          ++ [(assistant, lit "Error: Failed to send message. Please try again.")])
  /\ (currentMessage w' = currentMessage w ++ token_text fs)
  /\ (avatarStates w'
      = avatarStates w1
          ++ (if is_null data then [] else [speaking])
          ++ [error; idle])
  /\ (calls w' = calls w1)
  /\ (idleTimers w' = idleTimers w1)
  /\ isStreaming w' = false
  /\ turn w' = None.
Proof.
  intros Ht Hsplit Hbefore Hmark Hparse Hdata. cbv zeta.
  unfold App.step. rewrite Ht, loop_body_eq, Hsplit.
  assert (throws data = true) as Hthrows.
  { destruct Hdata as [->|[message ->]]; [done|]. unfold throws.
    change (strictEq (lit "complete") (lit "thinking")) with false.
    by rewrite strictEq_refl. }
  rewrite for_lines_app.
  pose proof (for_lines_frames JSON_parse (fun data => handleStreamEvent data ce)
                before w) as Hfr.
  rewrite Hbefore in Hfr. rewrite Hfr. cbn [completion_map and_then].
  rewrite for_lines_cons, Hmark, Hparse, Hthrows.
  split; [done|].
  generalize (handle_all (fun data => handleStreamEvent data ce) fs w)
             (handle_all_currentMessage toFixed fs ce w).
  intros w1 Hcm.
  destruct Hdata as [->|[message ->]].
  - split_and!; try done. simpl. by rewrite <- !app_assoc.
  - unfold App.handleStreamEvent, is_null.
    change (strictEq (lit "complete") (lit "thinking")) with false.
    rewrite strictEq_refl.
    split_and!; try done. simpl. by rewrite <- !app_assoc.
Qed.

(** X9.  An error status frame shows the accumulated reply followed by
    the note with the frame's message (["undefined"] when it has none) in
    the element of the turn, sets the avatar to error, and changes
    neither the accumulated reply, nor the streaming flag, nor the
    waiting activation.  The note is not kept: the next token frame
    rewrites the element with the accumulated reply alone. *)
Theorem error_note_is_provisional (w : World) (ce : nat) (role : Role)
  (shown_text content : jsstring) (metrics : option number)
  (message : option jsstring) :
  messages w !! ce = Some (role, shown_text) ->
  let w1 := handleStreamEvent (status (lit "error") metrics message) ce w in
  messages w1 !! ce
  = Some (role, currentMessage w ++ [10; 10] ++ lit "[Error: "
                  ++ toString message ++ lit "]")
  /\ currentMessage w1 = currentMessage w
  /\ avatar w1 = Some error
  /\ isStreaming w1 = isStreaming w
  /\ turn w1 = turn w
  /\ messages (handleStreamEvent (token content) ce w1) !! ce
     = Some (role, currentMessage w ++ content).
Proof.
  intros Hm. unfold App.handleStreamEvent.
  change (strictEq (lit "error") (lit "thinking")) with false.
  change (strictEq (lit "error") (lit "complete")) with false.
  rewrite strictEq_refl. cbv zeta. unfold avatar.
  cbn [messages currentMessage avatarStates isStreaming turn
       setAvatarState setTextContent set_currentMessage set_avatarStates set_messages].
  rewrite !list_lookup_alter_eq, Hm. split_and!; try done. apply last_snoc.
Qed.

(** X10.  When the request of a turn fails, by a rejected [fetch] or by
    a response that is not ok, the messages shown are the user's trimmed
    message, the empty element made for the reply, and a new assistant
    message with the failure text; the avatar went thinking, error,
    idle; the streaming flag is cleared and nothing is left waiting; the
    one call made is the request, and [speak] was not called. *)
Theorem request_failure (w : World) (value : jsstring) (e : Event) :
  isStreaming w = false ->
  truthy (trim value) = true ->
  e = FetchRejected \/ e = FetchResolved false ->
  let w' := run [TypeText value; ClickSend; e] w in
  messages w'
  = messages w ++ [(user, trim value); (assistant, []);
                   (assistant, lit "Error: Failed to send message. Please try again.")]
  /\ avatarStates w' = avatarStates w ++ [thinking; error; idle]
  /\ isStreaming w' = false
  /\ turn w' = None
  /\ currentMessage w' = []
  /\ messageInput w' = []
  /\ calls w' = calls w ++ [Fetch (trim value) (sessionId w)].
Proof.
  intros Hs Hv He. destruct w as [sid cm st vc mi ms av stx tr it cl].
  simpl in Hs. subst st.
  destruct He as [-> | ->]; unfold App.run; simpl; unfold sendMessage; simpl;
    rewrite Hv; simpl; by rewrite <- !app_assoc.
Qed.

Lemma step_streaming_turn (e : Event) (w : World) :
  (isStreaming w = true -> turn w <> None) ->
  isStreaming (step e w) = true -> turn (step e w) <> None.
Proof.
  intros Hw. destruct e as [value| |ok| |[value|]| | |e]; unfold App.step.
  - done.
  - unfold sendMessage. destruct (_ || _); [done|]. done.
  - destruct (turn w) as [[ce|ce buffer]|] eqn:E; [|(rewrite E; exact Hw)|(rewrite E; exact Hw)].
    destruct ok; [done|]. done.
  - destruct (turn w) as [[ce|ce buffer]|] eqn:E; [|(rewrite E; exact Hw)|(rewrite E; exact Hw)].
    done.
  - destruct (turn w) as [[ce|ce buffer]|] eqn:E; [(rewrite E; exact Hw)| |(rewrite E; exact Hw)].
    rewrite loop_body_eq. destruct (for_lines _ _ _ w); done.
  - destruct (turn w) as [[ce|ce buffer]|] eqn:E; [(rewrite E; exact Hw)| |(rewrite E; exact Hw)].
    done.
  - destruct (turn w) as [[ce|ce buffer]|] eqn:E; [(rewrite E; exact Hw)| |(rewrite E; exact Hw)].
    done.
  - destruct (idleTimers w); done.
  - destruct (voiceChat w); [|done]. destruct (from_page e); [|done].
    destruct (Voice.step e v) as [vc' acts]. by rewrite perform_all_spec.
Qed.

Lemma streaming_has_turn (w : World) : reachable w -> isStreaming w = true -> turn w <> None.
Proof.
  induction 1 as [w (_ & Hs & _)|e w Hr IH]; [by rewrite Hs|].
  by apply step_streaming_turn.
Qed.

(** X11.  In every state the controller can reach, the streaming flag is
    set exactly while an activation of [sendMessage] waits, and every
    way a waiting activation can end clears the flag and shows idle:
    while it awaits the response, a rejected [fetch] or a response that
    is not ok; while it reads, the end of the stream or a failed read. *)
Theorem turn_always_released (w : World) :
  reachable w ->
  (isStreaming w = true <-> turn w <> None)
  /\ ((exists ce, turn w = Some (AwaitFetch ce))
      -> releases toFixed JSON_parse FetchRejected w
         /\ releases toFixed JSON_parse (FetchResolved false) w)
  /\ ((exists ce buffer, turn w = Some (AwaitRead ce buffer))
      -> releases toFixed JSON_parse (ReadResolved None) w
         /\ releases toFixed JSON_parse ReadRejected w).
Proof.
  intros Hr. destruct (reachable_consistent toFixed JSON_parse w Hr) as (Ht & _ & _).
  split_and!.
  - split; [by apply streaming_has_turn|done].
  - intros [ce Hce]. unfold releases, App.step, avatar. rewrite Hce. simpl.
    by rewrite !last_snoc.
  - intros (ce & buffer & Hce). unfold releases, App.step, avatar. rewrite Hce. simpl.
    by rewrite !last_snoc.
Qed.

Lemma detectLanguageFromText_tag (text : jsstring) :
  detectLanguageFromText text = lit "hi" \/ detectLanguageFromText text = lit "en".
Proof. unfold detectLanguageFromText. repeat case_match; auto. Qed.

Lemma speak_calls_app (cs1 cs2 : list Call) :
  speak_calls (cs1 ++ cs2) = speak_calls cs1 ++ speak_calls cs2.
Proof. apply omap_app. Qed.

Lemma speak_calls_voice_nil (acts : list Voice.Action) :
  speak_calls (map VoiceAction acts) = [].
Proof. induction acts; [done|by simpl]. Qed.

Lemma handleStreamEvent_speak_calls (data : StreamEvent) (ce : nat) (w : World) :
  exists added,
    speak_calls (calls (handleStreamEvent data ce w)) = speak_calls (calls w) ++ added
    /\ (length added <= if is_complete data then 1 else 0)%nat
    /\ Forall (fun call => call.1 <> [] /\ (call.2 = lit "hi" \/ call.2 = lit "en")) added.
Proof.
  assert (exists added : list (jsstring * jsstring),
             speak_calls (calls w) = speak_calls (calls w) ++ added
             /\ (length added <= if is_complete data then 1 else 0)%nat
             /\ Forall (fun call => call.1 <> [] /\ (call.2 = lit "hi" \/ call.2 = lit "en"))
                  added) as Hnone.
  { exists []. rewrite app_nil_r. split_and!; [done|simpl; lia|done]. }
  unfold App.handleStreamEvent.
  destruct data as [content|state metrics message| | |state message];
    [done| |done|done|by repeat case_match].
  destruct (strictEq state (lit "thinking")) eqn:Ethink; [done|].
  unfold is_complete in *.
  destruct (strictEq state (lit "complete")) eqn:Ecomp.
  - cbv zeta. rewrite ?updateStatus_eq.
    set (w1 := match metrics with
               | Some latency => _
               | None => _
               end).
    assert (voiceChat w1 = voiceChat w /\ currentMessage w1 = currentMessage w
            /\ calls w1 = calls w) as (Hvc & Hcm & Hcl).
    { subst w1. destruct metrics; rewrite ?updateStatus_eq; done. }
    rewrite Hvc, Hcm. destruct (voiceChat w) as [vc|].
    + destruct (truthy (currentMessage w)) eqn:Etr.
      * rewrite voiceChat_speak_spec. cbn [calls set_idleTimers push_call set_calls
          set_messageInput set_voiceChat]. rewrite Hcl.
        exists [(currentMessage w, detectLanguageFromText (currentMessage w))].
        rewrite !speak_calls_app, speak_calls_Speak, speak_calls_voice_nil.
        change (speak_calls [SetTimeoutIdle]) with (@nil (jsstring * jsstring)).
        rewrite app_nil_r. split_and!; [done|simpl; lia|].
        constructor; [|done]. simpl. split; [|apply detectLanguageFromText_tag].
        intros Hnil. by rewrite Hnil in Etr.
      * simpl. rewrite Hcl, speak_calls_app. simpl. rewrite app_nil_r.
        exists []. rewrite app_nil_r. split_and!; [done|simpl; lia|done].
    + simpl. rewrite Hcl, speak_calls_app. simpl. rewrite app_nil_r.
      exists []. rewrite app_nil_r. split_and!; [done|simpl; lia|done].
  - destruct (strictEq state (lit "error")); done.
Qed.

(** X12.  [voiceChat.speak] is called on complete status frames only,
    at most once for each: over any list of frames handled, the calls
    of [speak] made before stay as they are, at most as many calls are
    added as the list has complete frames, and each of them has a text
    that is not empty and the language ['hi'] or ['en']. *)
Theorem speak_only_on_complete (fs : list StreamEvent) (ce : nat) (w : World) :
  exists added,
    speak_calls (calls (handle_all (fun data => handleStreamEvent data ce) fs w)) = speak_calls (calls w) ++ added
    /\ (length added <= count_complete fs)%nat
    /\ Forall (fun call => call.1 <> [] /\ (call.2 = lit "hi" \/ call.2 = lit "en")) added.
Proof.
  revert w. induction fs as [|data fs IH]; intros w.
  - exists []. simpl. rewrite app_nil_r. split_and!; [done|simpl; lia|done].
  - change (handle_all (fun data => handleStreamEvent data ce) (data :: fs) w)
      with (handle_all (fun data => handleStreamEvent data ce) fs (handleStreamEvent data ce w)).
    destruct (IH (handleStreamEvent data ce w)) as (added2 & -> & Hlen2 & Hall2).
    destruct (handleStreamEvent_speak_calls data ce w) as (added1 & -> & Hlen1 & Hall1).
    exists (added1 ++ added2). rewrite <- app_assoc. split_and!; [done| |].
    + rewrite length_app. unfold count_complete in *. rewrite filter_cons.
      destruct (is_complete data); case_decide; simpl in *; try done; lia.
    + by apply Forall_app.
Qed.

(** X13.  Submitting twice in a row is submitting once: the second call
    of [sendMessage] finds the flag set by the first, or the same state
    that made the first return, and does nothing. *)
Theorem sendMessage_twice (w : World) :
  sendMessage (sendMessage w) = sendMessage w
  /\ run [ClickSend; ClickSend] w = run [ClickSend] w.
Proof.
  assert (sendMessage (sendMessage w) = sendMessage w) as H; [|by split].
  unfold sendMessage at 2 3.
  destruct (negb (truthy (trim (messageInput w))) || isStreaming w) eqn:E.
  - unfold sendMessage. by rewrite E.
  - unfold sendMessage. by simpl.
Qed.

Lemma handleStreamEvent_other (data : StreamEvent) (ce i : nat) (w : World) :
  ce <> i -> messages (handleStreamEvent data ce w) !! i = messages w !! i.
Proof.
  intros Hne. unfold App.handleStreamEvent, updateStatus, voiceChat_speak.
  repeat (case_match; simpl in *; simplify_eq); rewrite ?perform_all_spec; simpl;
    by rewrite ?list_lookup_alter_ne.
Qed.

(** [loadMessages] empties the container and adds the messages given:
    nothing else of the page changes. *)
Lemma loadMessages_eq (msgs : list (Role * jsstring)) (w : World) :
  Session.loadMessages msgs w = set_messages msgs w.
Proof.
  unfold Session.loadMessages.
  assert (forall w0, foldl (fun w msg => addMessage msg.2 msg.1 w) w0 msgs
                     = set_messages (messages w0 ++ msgs) w0) as H.
  { induction msgs as [|[role content] msgs IH]; intros w0; simpl.
    - rewrite app_nil_r. by destruct w0.
    - rewrite IH. unfold addMessage. simpl. by rewrite <- app_assoc. }
  by rewrite H.
Qed.

(** X14.  The tasks of the conversation rewrite the element of the
    open turn only.  For every task of [step], which are typing,
    submitting, the answers of [fetch] and of the reader, the idle timer
    and the events of the voice chat, a message shown at a position
    other than that of the element the waiting activation holds stays
    where it is, with its role and text, and no message is removed.
    The continuation of [loadSession] is not among these tasks, and is
    the one place where messages are removed: its [loadMessages] shows
    the messages of the answer in place of all those shown before, an
    open turn's element included, and changes nothing else. *)
Theorem other_messages_untouched (e : Event) (w : World) (i : nat)
  (m : Role * jsstring) (msgs : list (Role * jsstring)) :
  turn_element (turn w) <> Some i ->
  messages w !! i = Some m ->
  (messages (step e w) !! i = Some m)
  /\ (length (messages w) <= length (messages (step e w)))%nat
  /\ (messages (Session.loadMessages msgs w) = msgs)
  /\ (Session.loadMessages msgs w = set_messages msgs w).
Proof.
  intros Hne Hm.
  split; [|split; [|by rewrite loadMessages_eq]].
  - assert (forall w', messages w' !! i = Some m ->
              messages (sendMessage_finally (sendMessage_catch w')) !! i = Some m) as Hfail.
    { intros w' Hw'. simpl. by apply lookup_app_l_Some. }
    destruct e as [value| |ok| |[value|]| | |e]; unfold App.step.
    + done.
    + unfold sendMessage. destruct (_ || _); [done|]. simpl.
      by apply lookup_app_l_Some, lookup_app_l_Some.
    + destruct (turn w) as [[ce|ce buffer]|]; [|done|done].
      destruct ok; [done|by apply Hfail].
    + destruct (turn w) as [[ce|ce buffer]|]; [|done|done]. by apply Hfail.
    + destruct (turn w) as [[ce|ce buffer]|] eqn:E; [done| |done].
      rewrite loop_body_eq.
      pose proof (for_lines_outcome JSON_parse (fun s => messages s !! i = Some m)
                    (fun data => handleStreamEvent data ce)
                    (complete_lines (buffer ++ value)) w) as Hq.
      assert (messages (outcome (for_lines JSON_parse
                                   (fun data => handleStreamEvent data ce)
                                   (complete_lines (buffer ++ value)) w)) !! i = Some m)
        as Hk.
      { apply Hq; [|done]. intros data s Hs. rewrite handleStreamEvent_other; [done|].
        intros ->. by apply Hne. }
      destruct (for_lines _ _ _ w) as [w'|w']; simpl in Hk; [done|by apply Hfail].
    + destruct (turn w) as [[ce|ce buffer]|]; done.
    + destruct (turn w) as [[ce|ce buffer]|]; [done| |done]. by apply Hfail.
    + destruct (idleTimers w); done.
    + destruct (voiceChat w); [|done]. destruct (from_page e); [|done].
      destruct (Voice.step e v) as [vc' acts]. by rewrite perform_all_spec.
  - assert (forall w', (length (messages w) <= length (messages w'))%nat ->
              (length (messages w)
               <= length (messages (sendMessage_finally (sendMessage_catch w'))))%nat)
      as Hfail.
    { intros w' Hw'. simpl. rewrite length_app. lia. }
    destruct e as [value| |ok| |[value|]| | |e]; unfold App.step.
    + done.
    + unfold sendMessage. destruct (_ || _); [done|]. simpl.
      rewrite !length_app. lia.
    + destruct (turn w) as [[ce|ce buffer]|]; [|done|done].
      destruct ok; [done|by apply Hfail].
    + destruct (turn w) as [[ce|ce buffer]|]; [|done|done]. by apply Hfail.
    + destruct (turn w) as [[ce|ce buffer]|] eqn:E; [done| |done].
      rewrite loop_body_eq.
      pose proof (for_lines_outcome JSON_parse
                    (fun s => length (messages s) = length (messages w))
                    (fun data => handleStreamEvent data ce)
                    (complete_lines (buffer ++ value)) w) as Hq.
      assert (length (messages (outcome (for_lines JSON_parse
                                   (fun data => handleStreamEvent data ce)
                                   (complete_lines (buffer ++ value)) w)))
              = length (messages w)) as Hk.
      { apply Hq; [|done]. intros data s <-. apply handleStreamEvent_length. }
      destruct (for_lines _ _ _ w) as [w'|w']; simpl in Hk.
      * simpl. by rewrite Hk.
      * apply Hfail. by rewrite Hk.
    + destruct (turn w) as [[ce|ce buffer]|]; done.
    + destruct (turn w) as [[ce|ce buffer]|]; [done| |done]. by apply Hfail.
    + destruct (idleTimers w); done.
    + destruct (voiceChat w); [|done]. destruct (from_page e); [|done].
      destruct (Voice.step e v) as [vc' acts]. by rewrite perform_all_spec.
Qed.

End ChatAppMore.

(** ** From dictation to the request *)

Section DictationMore.

Import App.

Variable toFixed : number -> nat -> jsstring.
Variable JSON_parse : jsstring -> option StreamEvent.

Abbreviation step := (step toFixed JSON_parse).

Lemma trimStart_head (s : jsstring) :
  match trimStart s with
  | [] => True
  | c :: _ => isWhiteSpace c = false
  end.
Proof.
  induction s as [|c s IH]; simpl; [done|].
  destruct (isWhiteSpace c) eqn:E; [done|]. done.
Qed.

Lemma trimStart_fixed (s : jsstring) :
  match s with
  | [] => True
  | c :: _ => isWhiteSpace c = false
  end ->
  trimStart s = s.
Proof. destruct s as [|c s]; simpl; [done|]. by intros ->. Qed.

Lemma trimStart_snoc (s : jsstring) (c : N) :
  isWhiteSpace c = false -> exists k, trimStart (s ++ [c]) = k ++ [c].
Proof.
  intros Hc. induction s as [|a s IH]; simpl.
  - rewrite Hc. by exists [].
  - destruct (isWhiteSpace a); [done|]. by exists (a :: s).
Qed.

Lemma trimEnd_head (s : jsstring) :
  match s with
  | [] => True
  | c :: _ => isWhiteSpace c = false
  end ->
  match trimEnd s with
  | [] => True
  | c :: _ => isWhiteSpace c = false
  end.
Proof.
  destruct s as [|c s]; [done|]. intros Hc. unfold trimEnd. simpl.
  destruct (trimStart_snoc (rev s) c Hc) as [k ->].
  by rewrite rev_app_distr.
Qed.

(** Trimming a trimmed string changes nothing. *)
Lemma trim_trim (s : jsstring) : trim (trim s) = trim s.
Proof.
  unfold trim at 1.
  rewrite (trimStart_fixed (trim s)).
  - unfold trim, trimEnd. rewrite rev_involutive.
    rewrite (trimStart_fixed (trimStart (rev (trimStart s)))) by apply trimStart_head.
    done.
  - unfold trim. apply trimEnd_head, trimStart_head.
Qed.

(** X15.  A final transcript is put, trimmed, into the message box and
    nothing is sent for it: the calls made are those of
    [handleTranscript], and neither the turn nor the messages change.
    An interim transcript leaves the message box as it is.  When the
    page then submits and no turn is open, the request carries exactly
    the trimmed transcript. *)
Theorem dictated_message (w : World) (vc : Voice.VoiceChat)
  (r : Voice.SpeechRecognition) (transcript : jsstring) :
  voiceChat w = Some vc ->
  Voice.recognition vc = Some r ->
  isStreaming w = false ->
  truthy (trim transcript) = true ->
  let w1 := step (VoiceEvent (Voice.OnResult transcript true)) w in
  messageInput w1 = trim transcript
  /\ calls w1 = calls w ++ map VoiceAction (Voice.handleTranscript transcript true)
  /\ turn w1 = turn w
  /\ messages w1 = messages w
  /\ messageInput (step (VoiceEvent (Voice.OnResult transcript false)) w) = messageInput w
  /\ calls (step ClickSend w1) = calls w1 ++ [Fetch (trim transcript) (sessionId w)].
Proof.
  intros Hvc Hrec Hs Htr. unfold App.step. rewrite Hvc. simpl. rewrite Hrec.
  rewrite !perform_all_spec. simpl.
  split_and!; try done.
  unfold sendMessage. simpl. rewrite trim_trim, Htr, Hs. simpl. done.
Qed.

End DictationMore.

(** ** The record button *)

Section ButtonsMore.

Import Voice Buttons.

(** X16.  A press that is released before its timer elapses calls
    nothing on the [VoiceChat] and leaves nothing behind: the timer it
    set is no longer scheduled, no other timer was added, nothing is
    held, and the elapsing of that timer afterwards does nothing.  A
    click then toggles: it stops when recording and starts otherwise. *)
Theorem short_press (p : Page) (down up : Event) (startThrows : bool) :
  down = MouseDown \/ down = TouchStart ->
  up = MouseUp \/ up = MouseLeave \/ up = TouchEnd ->
  let p' := fst (run [down; up] p) in
  snd (run [down; up] p) = []
  /\ voice p' = voice p
  /\ isHolding (gesture p') = false
  /\ pressTimer (gesture p') = None
  /\ (nextTimer (gesture p) ∉ scheduled (gesture p'))
  /\ (scheduled (gesture p') ⊆ scheduled (gesture p))
  /\ step (Elapsed (nextTimer (gesture p)) startThrows) p' = (p', [])
  /\ snd (step (Click startThrows) p')
     = (if isRecording (voice p) then snd (stopRecording (voice p))
        else snd (startRecording startThrows (voice p))).
Proof.
  intros Hd Hu.
  assert (run [down; up] p
          = ({| gesture := release (press (gesture p)); voice := voice p |}, [])) as ->.
  { destruct Hd as [-> | ->], Hu as [-> | [-> | ->]]; reflexivity. }
  cbn [fst snd]. unfold release, press. cbn [pressTimer isHolding scheduled nextTimer].
  assert (nextTimer (gesture p)
          ∉ (scheduled (gesture p) ∪ {[nextTimer (gesture p)]}) ∖ {[nextTimer (gesture p)]})
    as Hgone.
  { intros [_ Hn]%elem_of_difference. by apply Hn, elem_of_singleton. }
  split_and!; try done.
  - intros id [[Hid|Hid]%elem_of_union Hn]%elem_of_difference; done.
  - unfold step. cbn [gesture scheduled]. by rewrite bool_decide_eq_false_2.
  - unfold step. cbn [gesture voice isHolding negb].
    by destruct (isRecording (voice p)), (stopRecording (voice p)),
         (startRecording startThrows (voice p)).
Qed.

(** X17.  Holding the button with the mouse until the timer elapses
    starts one recognition session, and the click that follows the
    release stops it once the platform has reported the start.  With a
    touch the session is started in the same way, and the release stops
    nothing: no click follows, [touchstart] having prevented it. *)
Theorem hold_to_record (p : Page) (r : SpeechRecognition) (startThrows : bool) :
  recognition (voice p) = Some r ->
  isRecording (voice p) = false ->
  snd (run [MouseDown; Elapsed (nextTimer (gesture p)) false; Other OnStart;
            MouseUp; Click startThrows] p)
  = [RecognitionStart; ShowVoiceStatus (lit "Listening...") (lit "listening");
     UpdateRecordingUI true; RecognitionStop]
  /\ snd (run [TouchStart; Elapsed (nextTimer (gesture p)) false; Other OnStart;
               TouchEnd] p)
     = [RecognitionStart; ShowVoiceStatus (lit "Listening...") (lit "listening");
        UpdateRecordingUI true]
  /\ isRecording (voice (fst (run [TouchStart; Elapsed (nextTimer (gesture p)) false;
                                   Other OnStart; TouchEnd] p))) = true.
Proof.
  intros Hrec Hnot.
  assert (bool_decide (nextTimer (gesture p) ∈ scheduled (press (gesture p))) = true)
    as Hin.
  { apply bool_decide_eq_true_2. unfold press. simpl.
    apply elem_of_union. right. by apply elem_of_singleton. }
  unfold run, step. cbn [gesture voice fst snd]. rewrite Hin, Hnot. cbn [negb].
  unfold startRecording. rewrite Hrec, Hnot.
  cbn [gesture voice fst snd Voice.step]. rewrite Hrec.
  cbn [gesture voice fst snd isHolding release press pressTimer negb
       isRecording set_isRecording].
  unfold stopRecording. cbn [recognition isRecording set_isRecording].
  rewrite Hrec. simpl. done.
Qed.

End ButtonsMore.

(** ** The session *)

Section SessionMore.

Import App Session.

(** X18.  The session in use is the one the browser keeps: starting
    without a session, whatever the two requests of [loadSession]
    answer, a session id held by the controller afterwards is the one
    stored under ['sessionId'] in [localStorage]. *)
Theorem session_is_persisted (b : Browser)
  (get : Fetched (option (list (Role * jsstring)))) (post : Fetched jsstring)
  (id : jsstring) :
  sessionId (world b) = None ->
  sessionId (world (loadSession get post b)) = Some id ->
  localStorage (loadSession get post b) !! "sessionId" = Some id.
Proof.
  intros Hnone.
  assert (forall b', sessionId (world b') = None ->
            sessionId (world (createSession post b')) = Some id ->
            localStorage (createSession post b') !! "sessionId" = Some id) as Hcreate.
  { intros b' Hb'. unfold createSession.
    destruct post as [|[] [session_id|]]; simpl; rewrite ?updateStatus_eq; simpl;
      rewrite ?Hb'; try done.
    intros [= ->]. by rewrite lookup_insert_eq. }
  unfold loadSession.
  destruct (localStorage b !! "sessionId") as [saved|] eqn:Esaved; [|by apply Hcreate].
  destruct (truthy saved); [|by apply Hcreate].
  destruct get as [|[] [data|]]; try (by apply Hcreate).
  - rewrite loadMessages_eq. simpl. by intros [= <-].
  - unfold createSession.
    destruct post as [|[] [session_id|]]; simpl; rewrite ?updateStatus_eq; simpl;
      try (by intros [= <-]).
    intros [= ->]. by rewrite lookup_insert_eq.
Qed.

(** X19.  A saved session that the server knows is taken up without
    creating another: one request is made, for that session, the
    controller holds the saved id, [localStorage] is unchanged, and the
    messages shown are exactly those of the answer, in order, whatever
    was shown before (none when the answer has no [messages]). *)
Theorem saved_session_restored (b : Browser) (saved : jsstring)
  (data : option (list (Role * jsstring))) (post : Fetched jsstring) :
  localStorage b !! "sessionId" = Some saved ->
  truthy saved = true ->
  let b' := loadSession (Responded true (Some data)) post b in
  sessionId (world b') = Some saved
  /\ messages (world b') = default [] data
  /\ requests b' = requests b ++ [GetSession saved]
  /\ localStorage b' = localStorage b.
Proof.
  intros Hsaved Htr. unfold loadSession. rewrite Hsaved, Htr.
  by rewrite loadMessages_eq.
Qed.

(** X20.  When the saved session is refused or its request fails, a new
    session is created: its request is the last one made; when it is
    answered with an id, the controller holds that id and it replaces
    the saved one in [localStorage]; when it fails too, the controller's
    session id and [localStorage] stay as they were and the connection
    status, when the page has that element, reads Error. *)
Theorem stale_session_replaced (b : Browser) (saved : jsstring)
  (get : Fetched (option (list (Role * jsstring)))) (post : Fetched jsstring) :
  localStorage b !! "sessionId" = Some saved ->
  truthy saved = true ->
  (get = Rejected \/ exists json, get = Responded false json) ->
  let b' := loadSession get post b in
  requests b' = requests b ++ [GetSession saved; PostSession]
  /\ (forall id, post = Responded true (Some id) ->
        sessionId (world b') = Some id
        /\ localStorage b' = <["sessionId" := id]> (localStorage b))
  /\ ((post = Rejected \/ (exists json, post = Responded false json)
       \/ post = Responded true None) ->
        sessionId (world b') = sessionId (world b)
        /\ localStorage b' = localStorage b
        /\ world b' = updateStatus "connectionStatus" (lit "Error") (world b)).
Proof.
  intros Hsaved Htr Hget. unfold loadSession. rewrite Hsaved, Htr.
  assert (forall b0, requests (createSession post b0) = requests b0 ++ [PostSession]) as Hreq.
  { intros b0. unfold createSession. by destruct post as [|[] [?|]]. }
  destruct Hget as [-> | [json ->]]; cbv zeta; rewrite Hreq; cbn [requests];
    rewrite <- app_assoc; (split; [done|]); unfold createSession; cbn [world localStorage];
    (split; [by intros id ->|]);
    intros [-> | [[j ->] | ->]]; rewrite ?updateStatus_eq; try destruct j; done.
Qed.

End SessionMore.

(** ** The particles of the background *)

Section MatrixMore.

Import Matrix.

Local Open Scope Q_scope.

Lemma Qgt_bool_false (a b : Q) : Qgt_bool a b = false -> a <= b.
Proof.
  unfold Qgt_bool. intros H. apply negb_false_iff in H. by apply Qle_bool_iff.
Qed.

Lemma Qle_bool_false (a b : Q) : Qle_bool a b = false -> b < a.
Proof.
  intros H. apply Qnot_le_lt. intros Hle. apply Qle_bool_iff in Hle. congruence.
Qed.

Lemma unit_scaled (r bound : Q) : unit_draw r -> 0 <= bound -> 0 <= r * bound <= bound.
Proof. intros [H0 H1] Hb. split; nra. Qed.

Lemma reset_in_range (canvas : Canvas) (d : Draws) :
  unit_draws d -> 0 <= width canvas -> 0 <= height canvas ->
  in_range canvas (reset canvas d).
Proof.
  intros (Hx & Hy & Hs & Hz & Ho & Hl) Hw Hh.
  destruct (unit_scaled _ _ Hx Hw), (unit_scaled _ _ Hy Hh).
  unfold in_range, reset, unit_draw in *. simpl.
  repeat split; try done; lra.
Qed.

Lemma update_in_range (canvas : Canvas) (d : Draws) (p : Particle) :
  unit_draws d -> 0 <= width canvas -> 0 <= height canvas ->
  in_range canvas p -> in_range canvas (update canvas d p).
Proof.
  intros Hd Hw Hh Hp. unfold update.
  destruct (Qgt_bool (y p + speed p) (height canvas)) eqn:Ey; simpl.
  - pose proof (reset_in_range canvas d Hd Hw Hh) as Hr.
    unfold in_range in *. simpl in *. repeat split; try tauto; lra.
  - destruct (Qle_bool (life p - 1) 0) eqn:El.
    + pose proof (reset_in_range canvas d Hd Hw Hh) as Hr.
      unfold in_range in *. simpl in *. repeat split; try tauto; lra.
    + apply Qgt_bool_false in Ey. apply Qle_bool_false in El.
      unfold in_range in *. simpl. repeat split; try tauto; lra.
Qed.

(** X21.  On a canvas of sizes that are not negative, a particle made
    by [reset] lies on the canvas with its speed and size between 1 and
    3, its opacity between 0.2 and 0.7 and a positive life of at most
    150, and every [update] keeps it so, over any number of frames.  An
    [update] either moves the particle down by its speed and takes one
    from its life, or puts it back at the top with a life of at least
    50. *)
Theorem particles_stay_in_range (canvas : Canvas) (d : Draws) (ds : list Draws)
  (p : Particle) :
  0 <= width canvas ->
  0 <= height canvas ->
  unit_draws d ->
  Forall unit_draws ds ->
  in_range canvas (reset canvas d)
  /\ in_range canvas (updates canvas ds (reset canvas d))
  /\ ((y (update canvas d p) = y p + speed p /\ life (update canvas d p) = life p - 1)
      \/ (y (update canvas d p) = 0 /\ 50 <= life (update canvas d p))).
Proof.
  intros Hw Hh Hd Hds.
  pose proof (reset_in_range canvas d Hd Hw Hh) as Hr. split_and!; [done| |].
  - unfold updates. revert Hr. generalize (reset canvas d).
    induction Hds as [|d' ds Hd' Hds IH]; intros p0 Hp; [done|].
    simpl. apply IH. by apply update_in_range.
  - unfold update. destruct (_ || _); simpl; [right|by left].
    split; [done|]. destruct Hd as (_ & _ & _ & _ & _ & [Hl _]). lra.
Qed.

End MatrixMore.

(** ** The further properties at the samples *)

Section MoreSamples.

Import Voice App.

Lemma getVoiceForLanguage_selection_witness :
  exists voice,
    getVoiceForLanguage (lit "hi") sample_VoiceChat = Some voice
    /\ voice ∈ english_voice :: []
    /\ voice =
       default
         (default english_voice
            (find (fun v => includes (langPrefix (lit "hi")) (voice_lang v))
               (english_voice :: [])))
         (find (fun v => startsWith (langPrefix (lit "hi")) (voice_lang v))
            (english_voice :: [])).
Proof.
  refine (getVoiceForLanguage_selection sample_VoiceChat (lit "hi") english_voice [] _).
  reflexivity.
Defined.

Lemma speak_twice_witness :
  exists u1 u2,
    currentUtterance (fst (speak (lit "one") None sample_VoiceChat)) = Some u1
    /\ utterance_text u1 = lit "one"
    /\ last (snd (speak (lit "one") None sample_VoiceChat)) = Some (SynthesisSpeak u1)
    /\ snd (speak (lit "two") None (fst (speak (lit "one") None sample_VoiceChat)))
       = [SynthesisCancel; SynthesisSpeak u2]
    /\ currentUtterance
         (fst (speak (lit "two") None (fst (speak (lit "one") None sample_VoiceChat))))
       = Some u2
    /\ utterance_text u2 = lit "two"
    /\ utterance_voice u2 ∈ english_voice :: [].
Proof.
  refine (speak_twice sample_VoiceChat (lit "one") (lit "two") None None
            english_voice [] _ _ _); reflexivity.
Defined.

Lemma setLanguage_speak_agree_witness :
  langCode (lit "hi") = lit "hi-IN" \/ langCode (lit "hi") = lit "en-US".
Proof.
  refine (proj1 (setLanguage_speak_agree sample_VoiceChat (lit "hi") (lit "text")
                   english_voice [] _ _ _)); reflexivity.
Defined.

Lemma speak_needs_recognition_witness :
  speak (lit "Hello") None unsupported_VoiceChat = (unsupported_VoiceChat, []).
Proof.
  refine (speak_needs_recognition unsupported_VoiceChat (lit "Hello") None _ _).
  - apply (Voice.reachable_new unsupported_window). reflexivity.
  - reflexivity.
Defined.

Lemma chunk_keeps_turn_open_witness :
  turn (step sample_toFixed sample_parse (ReadResolved (Some (second_line ++ [10])))
          streaming_page)
  = Some (AwaitRead 1 (pending ([] ++ second_line ++ [10]))).
Proof.
  refine (proj1 (chunk_keeps_turn_open sample_toFixed sample_parse streaming_page 1 []
                   (second_line ++ [10]) _ _)).
  - vm_compute. reflexivity.
  - assert (complete_lines ([] ++ second_line ++ [10]) = [second_line]) as ->
      by (vm_compute; reflexivity).
    intros line Hin _. apply list_elem_of_singleton in Hin. subst line.
    exists (token (lit " there")). split; vm_compute; reflexivity.
Defined.

Lemma handler_exception_aborts_turn_witness :
  calls (step sample_toFixed sample_parse (ReadResolved (Some unmeasured_chunk))
           streaming_page)
  = calls (handle_all (fun data => handleStreamEvent sample_toFixed data 1)
             [token (lit " there")] streaming_page).
Proof.
  refine (proj1 (proj2 (proj2 (proj2 (proj2
            (handler_exception_aborts_turn sample_toFixed sample_parse streaming_page 1
               [] unmeasured_chunk status_line [second_line] []
               [token (lit " there")]
               (status_without_latency (lit "complete") None) _ _ _ _ _ _)))))).
  - vm_compute. reflexivity.
  - vm_compute. reflexivity.
  - vm_compute. reflexivity.
  - vm_compute. reflexivity.
  - vm_compute. reflexivity.
  - right. by exists None.
Defined.

Lemma error_note_is_provisional_witness :
  currentMessage (handleStreamEvent sample_toFixed
                    (status (lit "error") None (Some (lit "overloaded"))) 1 streaming_page)
  = currentMessage streaming_page.
Proof.
  refine (proj1 (proj2 (error_note_is_provisional sample_toFixed streaming_page 1
                          assistant (lit "Hi") (lit "!") None (Some (lit "overloaded")) _))).
  vm_compute. reflexivity.
Defined.

Lemma request_failure_witness :
  isStreaming (run sample_toFixed sample_parse
                 [TypeText (lit "Hello"); ClickSend; FetchRejected] fresh_page) = false.
Proof.
  refine (proj1 (proj2 (proj2 (request_failure sample_toFixed sample_parse fresh_page
                                 (lit "Hello") FetchRejected _ _ _)))).
  - reflexivity.
  - vm_compute. reflexivity.
  - left. reflexivity.
Defined.

Lemma turn_always_released_witness :
  isStreaming streaming_page = true <-> turn streaming_page <> None.
Proof.
  refine (proj1 (turn_always_released sample_toFixed sample_parse streaming_page _)).
  apply streaming_page_reachable.
Defined.

Lemma other_messages_untouched_witness :
  messages (step sample_toFixed sample_parse
              (ReadResolved (Some (second_line ++ [10]))) streaming_page) !! 0%nat
  = Some (user, lit "Hello").
Proof.
  refine (proj1 (other_messages_untouched sample_toFixed sample_parse
                   (ReadResolved (Some (second_line ++ [10]))) streaming_page 0
                   (user, lit "Hello") [] _ _)).
  - vm_compute. discriminate.
  - vm_compute. reflexivity.
Defined.

Lemma dictated_message_witness :
  messageInput (step sample_toFixed sample_parse
                  (VoiceEvent (OnResult (lit " Hello ") true)) fresh_page)
  = trim (lit " Hello ").
Proof.
  refine (proj1 (dictated_message sample_toFixed sample_parse fresh_page sample_VoiceChat
                   {| continuous := false; interimResults := true;
                      recognition_lang := None |}
                   (lit " Hello ") _ _ _ _)).
  - reflexivity.
  - reflexivity.
  - reflexivity.
  - vm_compute. reflexivity.
Defined.

Lemma short_press_witness :
  snd (Buttons.run [Buttons.MouseDown; Buttons.MouseUp] Buttons.sample_Page) = [].
Proof.
  refine (proj1 (short_press Buttons.sample_Page Buttons.MouseDown Buttons.MouseUp
                   false _ _)).
  - left. reflexivity.
  - left. reflexivity.
Defined.

Lemma hold_to_record_witness :
  snd (Buttons.run
         [Buttons.MouseDown;
          Buttons.Elapsed (Buttons.nextTimer (Buttons.gesture Buttons.sample_Page)) false;
          Buttons.Other OnStart; Buttons.MouseUp; Buttons.Click false]
         Buttons.sample_Page)
  = [RecognitionStart; ShowVoiceStatus (lit "Listening...") (lit "listening");
     UpdateRecordingUI true; RecognitionStop].
Proof.
  refine (proj1 (hold_to_record Buttons.sample_Page
                   {| continuous := false; interimResults := true;
                      recognition_lang := None |} false _ _)).
  - reflexivity.
  - reflexivity.
Defined.

Lemma session_is_persisted_witness :
  Session.localStorage
    (Session.loadSession (Session.Responded true (Some None)) Session.Rejected
       Session.returning_Browser) !! "sessionId"
  = Some (lit "session-0").
Proof.
  refine (session_is_persisted Session.returning_Browser
            (Session.Responded true (Some None)) Session.Rejected (lit "session-0") _ _).
  - reflexivity.
  - vm_compute. reflexivity.
Defined.

Lemma saved_session_restored_witness :
  sessionId (Session.world
               (Session.loadSession
                  (Session.Responded true (Some (Some [(user, lit "Hello")])))
                  Session.Rejected Session.returning_Browser))
  = Some (lit "session-0").
Proof.
  refine (proj1 (saved_session_restored Session.returning_Browser (lit "session-0")
                   (Some [(user, lit "Hello")]) Session.Rejected _ _)).
  - vm_compute. reflexivity.
  - reflexivity.
Defined.

Lemma stale_session_replaced_witness :
  Session.requests
    (Session.loadSession (Session.Responded false None)
       (Session.Responded true (Some (lit "session-1"))) Session.returning_Browser)
  = Session.requests Session.returning_Browser
      ++ [Session.GetSession (lit "session-0"); Session.PostSession].
Proof.
  refine (proj1 (stale_session_replaced Session.returning_Browser (lit "session-0")
                   (Session.Responded false None)
                   (Session.Responded true (Some (lit "session-1"))) _ _ _)).
  - vm_compute. reflexivity.
  - reflexivity.
  - right. eexists. reflexivity.
Defined.

Lemma particles_stay_in_range_witness :
  Matrix.in_range Matrix.sample_Canvas (Matrix.reset Matrix.sample_Canvas Matrix.sample_Draws).
Proof.
  refine (proj1 (particles_stay_in_range Matrix.sample_Canvas Matrix.sample_Draws
                   [Matrix.sample_Draws; Matrix.sample_Draws]
                   (Matrix.reset Matrix.sample_Canvas Matrix.sample_Draws) _ _ _ _)).
  - unfold Qle. simpl. lia.
  - unfold Qle. simpl. lia.
  - unfold Matrix.unit_draws, Matrix.unit_draw, Qle, Qlt. simpl. lia.
  - repeat constructor; unfold Qle, Qlt; simpl; lia.
Defined.

End MoreSamples.
